(** * cue_splitter.py: CUE parsing, name sanitising and the split decision

    A shallow embedding of [src/cue_splitter.py].  Python strings are
    sequences of Unicode code points, so a [str] is a [list Z]; byte strings
    are [list byte]; Python calls that may raise return a [result]. *)

From Stdlib Require Import ZArith Lia Ascii String DecimalString.
From Stdlib Require Strings.Byte.
From stdpp Require Import base option list gmap.

Local Open Scope Z_scope.

(** ** Python values *)

(** A Python [str]: the list of its code points. *)
Abbreviation str := (list Z) (only parsing).

(** The code points of an ASCII literal of the source. *)
Definition py (s : string) : str :=
  (fun a => Z.of_nat (nat_of_ascii a)) <$> list_ascii_of_string s.

(** The exception classes that occur; all are subclasses of [Exception]. *)
Inductive exn := OSError | ValueError | RuntimeError | IndexError.

(** The outcome of a Python call: a value, or a raised exception. *)
Inductive result (A : Type) : Type :=
| Ok (a : A)
| Raise (e : exn).
Arguments Ok {A} a.
Arguments Raise {A} e.

#[global] Instance result_ret : MRet result := fun A a => Ok a.
#[global] Instance result_bind : MBind result := fun A B f m =>
  match m with Ok a => f a | Raise e => Raise e end.
#[global] Instance result_fmap : FMap result := fun A B f m =>
  match m with Ok a => Ok (f a) | Raise e => Raise e end.

(** [try: body except Exception: handler]. *)
Definition try_except {A} (body : result A) (handler : A) : result A :=
  match body with Ok a => Ok a | Raise _ => Ok handler end.

(** [len(l)] as a Python int. *)
Definition len {A} (l : list A) : Z := Z.of_nat (length l).

(** [l[i]]: a negative index counts from the end, an index out of range
    raises [IndexError]. *)
Definition getitem {A} (l : list A) (i : Z) : result A :=
  let j := if i <? 0 then i + len l else i in
  if (0 <=? j) && (j <? len l)
  then match l !! Z.to_nat j with Some a => Ok a | None => Raise IndexError end
  else Raise IndexError.

(** [l[i] = a], with the same index rules. *)
Definition setitem {A} (l : list A) (i : Z) (a : A) : result (list A) :=
  let j := if i <? 0 then i + len l else i in
  if (0 <=? j) && (j <? len l)
  then Ok (<[Z.to_nat j := a]> l)
  else Raise IndexError.

(** ** Characters

    [ch1 <= ch2] on one-character strings compares code points. *)
Definition between (lo hi : string) (ch : Z) : bool :=
  match py lo, py hi with
  | [l], [h] => (l <=? ch) && (ch <=? h)
  | _, _ => false
  end.

(** [ch.isupper()] and [ch.lower()].  The program applies them to table
    entries and to elements of [result_chars] only, which are ASCII
    (lemma [expansion_safe] below); on ASCII they are as follows. *)
Definition isupper (ch : Z) : bool := between "A" "Z" ch.
Definition lower (ch : Z) : Z := if isupper ch then ch + 32 else ch.

(** ** The transliteration table *)

Definition m (s : string) : option str := Some (py s).

Definition LATIN_MAP : list (option str) := [
    (* latin-1 *)
    m "A"; m "A"; m "A"; m "A"; m "A"; m "A";
    m "AE";
    m "C";
    m "E"; m "E"; m "E"; m "E";
    m "I"; m "I"; m "I"; m "I";
    m "DH";
    m "N";
    m "O"; m "O"; m "O"; m "O"; m "O";
    None;
    m "O";
    m "U"; m "U"; m "U"; m "U";
    m "Y";
    m "th";
    m "ss";
    m "a"; m "a"; m "a"; m "a"; m "a"; m "a";
    m "ae";
    m "c";
    m "e"; m "e"; m "e"; m "e";
    m "i"; m "i"; m "i"; m "i";
    m "dh";
    m "n";
    m "o"; m "o"; m "o"; m "o"; m "o";
    None;
    m "o";
    m "u"; m "u"; m "u"; m "u";
    m "y";
    m "th";
    m "y";
    (* latin extended-A *)
    m "A"; m "a"; m "A"; m "a"; m "A"; m "a";
    m "C"; m "c"; m "C"; m "c"; m "C"; m "c"; m "C"; m "c";
    m "D"; m "d"; m "D"; m "d";
    m "E"; m "e"; m "E"; m "e"; m "E"; m "e"; m "E"; m "e"; m "E"; m "e";
    m "G"; m "g"; m "G"; m "g"; m "G"; m "g"; m "G"; m "g";
    m "H"; m "h"; m "H"; m "h";
    m "I"; m "i"; m "I"; m "i"; m "I"; m "i"; m "I"; m "i"; m "I"; m "i";
    m "IJ"; m "ij";
    m "J"; m "j";
    m "K"; m "k"; m "k";
    m "L"; m "l"; m "L"; m "l"; m "L"; m "l"; m "L"; m "l"; m "L"; m "l";
    m "N"; m "n"; m "N"; m "n"; m "N"; m "n"; m "n"; m "N"; m "n";
    m "O"; m "o"; m "O"; m "o"; m "O"; m "o";
    m "OE"; m "oe";
    m "R"; m "r"; m "R"; m "r"; m "R"; m "r";
    m "S"; m "s"; m "S"; m "s"; m "S"; m "s"; m "S"; m "s";
    m "T"; m "t"; m "T"; m "t"; m "T"; m "t";
    m "U"; m "u"; m "U"; m "u"; m "U"; m "u"; m "U"; m "u"; m "U"; m "u"; m "U"; m "u";
    m "W"; m "w";
    m "Y"; m "y"; m "Y";
    m "Z"; m "z"; m "Z"; m "z"; m "Z"; m "z";
    m "s"
  ].
Definition LATIN_MAP_BEGIN : Z := 0xC0.
Definition LATIN_MAP_END : Z := LATIN_MAP_BEGIN + len LATIN_MAP.

(** ** sanitize_name *)

(** The test of the first branch of the loop: an ASCII digit, a space or
    an ASCII letter. *)
Definition is_plain (ch : Z) : bool :=
  between "0" "9" ch || bool_decide ([ch] = py " ")
  || between "A" "Z" ch || between "a" "z" ch.

(** Truth value of a table entry: [None] and the empty string are false. *)
Definition truthy (mapped : option str) : option str :=
  match mapped with
  | Some ((_ :: _) as s) => Some s
  | _ => None
  end.

(** [len(mapped) >= 2 and mapped[1].isupper()]. *)
Definition second_is_upper (mapped : str) : bool :=
  (2 <=? len mapped) &&
  match getitem mapped 1 with Ok c => isupper c | Raise _ => false end.

(** One iteration of [for ch in value], on the pair
    [(result_chars, guessed_indexes)]. *)
Definition emit_step (st : str * list Z) (ch : Z) : str * list Z :=
  let '(result_chars, guessed_indexes) := st in
  let code := ch in
  if is_plain ch then (result_chars ++ [ch], guessed_indexes)
  else if bool_decide ([ch] = [9]) then (result_chars ++ py " ", guessed_indexes)
  else if (LATIN_MAP_BEGIN <=? code) && (code <? LATIN_MAP_END) then
    match truthy (mjoin (LATIN_MAP !! Z.to_nat (code - LATIN_MAP_BEGIN))) with
    | Some mapped =>
        let result_chars := result_chars ++ mapped in
        if second_is_upper mapped
        then (result_chars, guessed_indexes ++ [len result_chars - 1])
        else (result_chars, guessed_indexes)
    | None => st
    end
  else st.

(** The first loop, from empty lists. *)
Definition emit (value : str) : str * list Z :=
  foldl emit_step ([], []) value.

(** One iteration of [for idx in guessed_indexes]. *)
Definition patch_step (acc : result str) (idx : Z) : result str :=
  result_chars ← acc;
  if bool_decide (idx ≠ len result_chars - 1) then
    nxt ← getitem result_chars (idx + 1);
    if negb (isupper nxt) then
      cur ← getitem result_chars idx;
      setitem result_chars idx (lower cur)
    else Ok result_chars
  else Ok result_chars.

Definition sanitize_name (value : str) : result str :=
  if bool_decide (value = py "( )") then Ok (py "Untitled")
  else
    let '(result_chars, guessed_indexes) := emit value in
    foldl patch_step (Ok result_chars) guessed_indexes.


(** ** Text: whitespace, lines, regular expressions *)

(** The characters of [str.isspace], which are also those of the pattern
    [\s] and those that [str.strip] removes. *)
Definition is_space (ch : Z) : bool :=
  (0x9 <=? ch) && (ch <=? 0xD) || (0x1C <=? ch) && (ch <=? 0x20)
  || bool_decide (ch ∈ [0x85; 0xA0; 0x1680]) || (0x2000 <=? ch) && (ch <=? 0x200A)
  || bool_decide (ch ∈ [0x2028; 0x2029; 0x202F; 0x205F; 0x3000]).

(** First code points of the runs of ten decimal digits (category Nd,
    Unicode 14), the characters of the pattern [\d]. *)
Definition DECIMAL_ZEROS : list Z := [
    0x30; 0x660; 0x6F0; 0x7C0; 0x966; 0x9E6; 0xA66; 0xAE6; 0xB66; 0xBE6;
    0xC66; 0xCE6; 0xD66; 0xDE6; 0xE50; 0xED0; 0xF20; 0x1040; 0x1090;
    0x17E0; 0x1810; 0x1946; 0x19D0; 0x1A80; 0x1A90; 0x1B50; 0x1BB0; 0x1C40;
    0x1C50; 0xA620; 0xA8D0; 0xA900; 0xA9D0; 0xA9F0; 0xAA50; 0xABF0; 0xFF10;
    0x104A0; 0x10D30; 0x11066; 0x110F0; 0x11136; 0x111D0; 0x112F0; 0x11450;
    0x114D0; 0x11650; 0x116C0; 0x11730; 0x118E0; 0x11950; 0x11C50; 0x11D50;
    0x11DA0; 0x16A60; 0x16AC0; 0x16B50; 0x1D7CE; 0x1D7D8; 0x1D7E2; 0x1D7EC;
    0x1D7F6; 0x1E140; 0x1E2F0; 0x1E950; 0x1FBF0
  ].
Definition is_decimal (ch : Z) : bool :=
  existsb (fun z => (z <=? ch) && (ch <? z + 10)) DECIMAL_ZEROS.

(** [s.strip()]. *)
Fixpoint lstrip (s : str) : str :=
  match s with
  | ch :: r => if is_space ch then lstrip r else s
  | [] => []
  end.
Definition rstrip (s : str) : str := reverse (lstrip (reverse s)).
Definition strip (s : str) : str := rstrip (lstrip s).

(** The line boundaries of [str.splitlines]; the pair CR LF is one. *)
Definition is_linebreak (ch : Z) : bool :=
  bool_decide (ch ∈ [0xA; 0xB; 0xC; 0xD; 0x1C; 0x1D; 0x1E; 0x85; 0x2028; 0x2029]).

(** [text.splitlines()], [cur] being the line read so far. *)
Fixpoint splitlines_from (cur : str) (text : str) : list str :=
  match text with
  | [] => match cur with [] => [] | _ => [cur] end
  | ch :: r =>
      if is_linebreak ch then
        match ch, r with
        | 0xD, 0xA :: r' => cur :: splitlines_from [] r'
        | _, _ => cur :: splitlines_from [] r
        end
      else splitlines_from (cur ++ [ch]) r
  end.
Definition splitlines (text : str) : list str := splitlines_from [] text.

(** The representative of a character under [re.IGNORECASE]: an ASCII
    capital is identified with its small letter, and so are the four
    letters outside ASCII whose case mapping reaches an ASCII letter
    (U+0130 and U+0131 with i, U+017F with s, U+212A with k). *)
Definition casefold (ch : Z) : Z :=
  if isupper ch then ch + 32
  else if bool_decide (ch ∈ [0x130; 0x131]) then 0x69
  else if bool_decide (ch = 0x17F) then 0x73
  else if bool_decide (ch = 0x212A) then 0x6B
  else ch.

(** The patterns of the program are sequences of character classes, each
    taken once, [*] times or [+] times, some of them a capturing group;
    all are anchored by [^] and [$]. *)
Inductive quant := One | Star | Plus.
Record item := Item { cls : Z -> bool; rep : quant; grp : bool }.

(** A literal character of a pattern compiled with [re.IGNORECASE]. *)
Definition lit (c : Z) : item :=
  Item (fun ch => bool_decide (casefold ch = casefold c)) One false.
(** The literals of a word, in order. *)
Definition word (w : string) : list item := lit <$> py w.
(** The double quote. *)
Definition dquote : Z := 0x22.
Definition quoted : item := Item (fun ch => negb (bool_decide (ch = dquote))) Plus true.

Definition s_star : item := Item is_space Star false.
Definition s_plus : item := Item is_space Plus false.

(** Greedy repetition of a class: the longest run is tried first and given
    back one character at a time until the rest of the pattern [k]
    matches.  Returns the run consumed and the groups of the rest. *)
Fixpoint repeat_cls (P : Z -> bool) (k : str -> option (list str)) (s : str)
  : option (str * list str) :=
  match s with
  | ch :: r =>
      if P ch then
        match repeat_cls P k r with
        | Some (w, gs) => Some (ch :: w, gs)
        | None => (fun gs => ([], gs)) <$> k s
        end
      else (fun gs => ([], gs)) <$> k s
  | [] => (fun gs => ([], gs)) <$> k s
  end.

Definition with_group (it : item) (w : str) (gs : list str) : list str :=
  if grp it then w :: gs else gs.

(** [$] matches at the end of the string and before a newline that ends
    the string. *)
Definition at_end (s : str) : bool :=
  bool_decide (s = []) || bool_decide (s = [0xA]).

(** Backtracking match of an anchored pattern; the result lists the
    captured groups. *)
Fixpoint run (p : list item) (s : str) : option (list str) :=
  match p with
  | [] => if at_end s then Some [] else None
  | it :: p' =>
      match rep it with
      | One =>
          match s with
          | ch :: r => if cls it ch then with_group it [ch] <$> run p' r else None
          | [] => None
          end
      | Star =>
          (fun '(w, gs) => with_group it w gs) <$> repeat_cls (cls it) (run p') s
      | Plus =>
          match s with
          | ch :: r =>
              if cls it ch
              then (fun '(w, gs) => with_group it (ch :: w) gs)
                     <$> repeat_cls (cls it) (run p') r
              else None
          | [] => None
          end
      end
  end.

(** [pattern.match(line)], and [m.group(n)] of a match. *)
Definition re_match (p : list item) (line : str) : option (list str) := run p line.
Definition group (gs : list str) (n : nat) : str := default [] (gs !! (n - 1)%nat).

(** ** Regex patterns *)

Definition FILE_RE : list item :=
  [s_star] ++ word "FILE" ++ [s_plus] ++ [lit dquote; quoted; lit dquote]
  ++ [s_plus] ++ [Item (fun ch => negb (is_space ch)) Plus true] ++ [s_star].
Definition TRACK_RE : list item :=
  [s_star] ++ word "TRACK" ++ [s_plus] ++ [Item is_decimal Plus false]
  ++ [s_plus] ++ word "AUDIO" ++ [s_star].
Definition PERFORMER_RE : list item :=
  [s_star] ++ word "PERFORMER" ++ [s_plus] ++ [lit dquote; quoted; lit dquote]
  ++ [s_star].
Definition TITLE_RE : list item :=
  [s_star] ++ word "TITLE" ++ [s_plus] ++ [lit dquote; quoted; lit dquote]
  ++ [s_star].

(** Audio file extensions. *)
Definition AUDIO_EXTS : gset str := {[ py ".flac"; py ".wav" ]}.

(** ** The host: codecs and file system

    What the program asks of the interpreter's libraries and of the
    machine it runs on.  A path is known by the string [str(p)]. *)
Record Path := mkPath { path_str : str }.

#[global] Instance Path_eq_dec : EqDecision Path.
Proof. solve_decision. Defined.

Definition bytes := list Byte.byte.

Record host := Host {
  (** [raw.decode(enc, errors="strict")] for the codecs other than
      latin-1; [None] is [UnicodeDecodeError]. *)
  codec : string -> bytes -> option str;
  (** [raw.decode("utf-8", errors="replace")]. *)
  utf_8_replace : bytes -> str;
  (** [path.read_bytes()]. *)
  read_bytes : Path -> result bytes;
  (** [Path(fname)], [p.is_absolute()], [p.parent], [p / q], [p.suffix]. *)
  path_of : str -> Path;
  is_absolute : Path -> bool;
  parent : Path -> Path;
  joinpath : Path -> Path -> Path;
  suffix : Path -> str;
  (** [p.resolve()], [p.exists()], [p.iterdir()], [p.is_file()]. *)
  resolve : Path -> result Path;
  exists_ : Path -> result bool;
  iterdir : Path -> result (list Path);
  is_file : Path -> result bool
}.

(** ** read_text_guessing *)

(** Strict latin-1 decoding: every byte is the code point of its value. *)
Definition latin_1 (raw : bytes) : str :=
  (fun b => Z.of_N (Byte.to_N b)) <$> raw.

Definition decode (h : host) (enc : string) (raw : bytes) : option str :=
  if bool_decide (enc = "latin-1"%string) then Some (latin_1 raw)
  else codec h enc raw.

Definition ENCODINGS : list string :=
  ["utf-8-sig"; "utf-16"; "utf-16le"; "utf-16be"; "cp1251"; "latin-1"]%string.

(** The replacement character. *)
Definition REPLACEMENT : Z := 0xFFFD.

(** The loop over the encodings: [Some text] when an iteration returns,
    [None] when the loop runs to its end. *)
Fixpoint try_encodings (h : host) (encs : list string) (raw : bytes) : option str :=
  match encs with
  | [] => None
  | enc :: rest =>
      match decode h enc raw with
      | Some text =>
          if bool_decide (REPLACEMENT ∉ text) then Some text
          else try_encodings h rest raw
      | None => try_encodings h rest raw
      end
  end.

Definition decode_guessing (h : host) (raw : bytes) : str :=
  match try_encodings h ENCODINGS raw with
  | Some text => text
  | None => utf_8_replace h raw
  end.

Definition read_text_guessing (h : host) (path : Path) : result str :=
  raw ← read_bytes h path;
  Ok (decode_guessing h raw).

(** ** The cue parser *)

(** The path a [FILE] name refers to. *)
Definition resolve_ref (h : host) (cue : Path) (fname : str) : result Path :=
  let ref := path_of h fname in
  if negb (is_absolute h ref)
  then resolve h (joinpath h (parent h cue) ref)
  else Ok ref.

(** One iteration of [for line in text], on the pair [(refs, seen)]. *)
Definition files_step (h : host) (cue : Path)
    (acc : result (list Path * gset str)) (line : str)
  : result (list Path * gset str) :=
  '(refs, seen) ← acc;
  match re_match FILE_RE line with
  | None => Ok (refs, seen)
  | Some gs =>
      let fname := strip (group gs 1) in
      ref ← resolve_ref h cue fname;
      let ref_str := path_str ref in
      if bool_decide (ref_str ∉ seen)
      then Ok (refs ++ [ref], {[ref_str]} ∪ seen)
      else Ok (refs, seen)
  end.

Definition parse_cue_files (h : host) (cue : Path) : result (list Path) :=
  match splitlines <$> read_text_guessing h cue with
  | Raise _ => Ok []
  | Ok text => fst <$> foldl (files_step h cue) (Ok ([], ∅)) text
  end.

(** The loop of [parse_cue_artist_album] from the state [(artist, album)];
    [break] ends it and [continue] goes to the next line. *)
Fixpoint artist_album_loop (lines : list str) (artist album : option str)
  : option str * option str :=
  match lines with
  | [] => (artist, album)
  | line :: rest =>
      if bool_decide (is_Some (re_match TRACK_RE line)) then (artist, album)
      else
        match artist, re_match PERFORMER_RE line with
        | None, Some gs => artist_album_loop rest (Some (strip (group gs 1))) album
        | _, _ =>
            match album, re_match TITLE_RE line with
            | None, Some gs => artist_album_loop rest artist (Some (strip (group gs 1)))
            | _, _ => artist_album_loop rest artist album
            end
        end
  end.

Definition parse_cue_artist_album (h : host) (cue : Path)
  : result (option str * option str) :=
  match splitlines <$> read_text_guessing h cue with
  | Raise _ => Ok (None, None)
  | Ok lines => Ok (artist_album_loop lines None None)
  end.

Definition count_cue_tracks (h : host) (cue : Path) : result Z :=
  match splitlines <$> read_text_guessing h cue with
  | Raise _ => Ok 0
  | Ok text => Ok (len (filter (fun line => is_Some (re_match TRACK_RE line)) text))
  end.

(** ** The decision engine *)

(** [s.lower()], as far as membership in [AUDIO_EXTS] can tell: no
    character outside ASCII has a lower case made of the letters of the
    two extensions. *)
Definition str_lower (s : str) : str := lower <$> s.

(** The test of the generator of [count_audio_files]. *)
Definition is_audio (h : host) (p : Path) : result bool :=
  is_file h p ≫= fun f : bool =>
  Ok (f && bool_decide (str_lower (suffix h p) ∈ AUDIO_EXTS)).

Fixpoint count_where (h : host) (ps : list Path) : result Z :=
  match ps with
  | [] => Ok 0
  | p :: r =>
      is_audio h p ≫= fun b : bool =>
      count_where h r ≫= fun n : Z =>
      Ok ((if b then 1 else 0) + n)
  end.

Definition count_audio_files (h : host) (directory : Path) : result Z :=
  exists_ h directory ≫= fun e : bool =>
  if negb e then Ok 0
  else try_except (iterdir h directory ≫= count_where h) 0.

Definition find_audio_file (h : host) (refs : list Path) : result (option Path) :=
  match refs with
  | r0 :: _ => exists_ h r0 ≫= fun e : bool => Ok (if e then Some r0 else None)
  | [] => Ok None
  end.

(** [str(n)] of an int. *)
Definition str_of_int (n : Z) : str :=
  py (DecimalString.NilZero.string_of_int (Z.to_int n)).

Definition should_process (h : host) (cue out_dir : Path) (force : bool)
  : result (bool * str) :=
  count_cue_tracks h cue ≫= fun track_count : Z =>
  if track_count <=? 1 then Ok (false, py "no tracks or only 1 track")
  else
    parse_cue_files h cue ≫= fun refs : list Path =>
    if len refs =? 0 then Ok (false, py "no audio file referenced")
    else if len refs >? 1 then Ok (false, py "multi-file CUE (already split)")
    else
      find_audio_file h refs ≫= fun audio : option Path =>
      if negb (bool_decide (is_Some audio)) then Ok (false, py "audio file not found")
      else
        let accept := Ok (true, str_of_int track_count ++ py " tracks") in
        if negb force then
          count_audio_files h out_dir ≫= fun existing_count : Z =>
          if existing_count =? track_count
          then Ok (false, py "already processed (" ++ str_of_int existing_count
                          ++ py "/" ++ str_of_int track_count ++ py " tracks)")
          else accept
        else accept.


(** ** Definitions used to state the properties *)

(** The characters a sanitised name may hold: ASCII letters, ASCII digits
    and the space. *)
Definition safe (ch : Z) : Prop :=
  48 <= ch <= 57 \/ ch = 32 \/ 65 <= ch <= 90 \/ 97 <= ch <= 122.

(** What one character contributes in the first loop: the characters it
    appends, and whether it records a guessed index. *)
Definition expansion (ch : Z) : str * bool :=
  let '(chars, guessed) := emit_step ([], []) ch in
  (chars, bool_decide (guessed ≠ [])).

(** All the characters appended for a string, and the indexes recorded
    when the first of them lands at offset [off]. *)
Definition raw (value : str) : str := concat ((fun ch => (expansion ch).1) <$> value).
Fixpoint guessed_from (off : Z) (value : str) : list Z :=
  match value with
  | [] => []
  | ch :: r =>
      (if (expansion ch).2 then [off + len (expansion ch).1 - 1] else [])
      ++ guessed_from (off + len (expansion ch).1) r
  end.

(** An expansion as it stands in the output when [rest] follows it: a
    guessed expansion followed by a character that is not uppercase has
    its last letter lowercased. *)
Definition settle (e : str * bool) (rest : str) : str :=
  match e.2, rest with
  | true, nxt :: _ =>
      if isupper nxt then e.1 else alter lower (length e.1 - 1)%nat e.1
  | _, _ => e.1
  end.

(** The output, built from the right. *)
Definition render_step (ch : Z) (rest : str) : str :=
  settle (expansion ch) rest ++ rest.
Definition render (value : str) : str := foldr render_step [] value.

(** A line that is a track marker. *)
Definition is_track (line : str) : bool :=
  bool_decide (is_Some (re_match TRACK_RE line)).

(** The lines strictly before the first track marker. *)
Fixpoint before_track (lines : list str) : list str :=
  match lines with
  | [] => []
  | line :: rest => if is_track line then [] else line :: before_track rest
  end.

(** The quoted text of the first line that matches [p], with the
    whitespace around it removed as [.strip()] does. *)
Fixpoint first_capture (p : list item) (lines : list str) : option str :=
  match lines with
  | [] => None
  | line :: rest =>
      match re_match p line with
      | Some gs => Some (strip (group gs 1))
      | None => first_capture p rest
      end
  end.

(** The first of two optional values that is present. *)
Definition or_else {A} (a b : option A) : option A :=
  match a with Some _ => a | None => b end.

(** The names of the [FILE] lines, in order. *)
Definition file_names (lines : list str) : list str :=
  omap (fun line => (fun gs => strip (group gs 1)) <$> re_match FILE_RE line) lines.

(** A reference is kept when its string is not among the [earlier] ones. *)
Fixpoint keep_first (earlier : list str) (refs : list Path) : list Path :=
  match refs with
  | [] => []
  | r :: rest =>
      (if bool_decide (path_str r ∈ earlier) then [] else [r])
      ++ keep_first (earlier ++ [path_str r]) rest
  end.

(** The host [h] with another decoder for the lossy fallback. *)
Definition with_fallback (h : host) (fallback : bytes -> list Z) : host := {|
  codec := codec h;
  utf_8_replace := fallback;
  read_bytes := read_bytes h;
  path_of := path_of h;
  is_absolute := is_absolute h;
  parent := parent h;
  joinpath := joinpath h;
  suffix := suffix h;
  resolve := resolve h;
  exists_ := exists_ h;
  iterdir := iterdir h;
  is_file := is_file h
|}.

(** ** A host in memory

    A machine with the given files and directory listings, used to run the
    program on concrete inputs.  Names are joined by [/], a path that
    begins with [/] is absolute, and [resolve] returns its argument unless
    the path is listed in [loops], where it raises as [Path.resolve] does
    on a symbolic-link loop.  Strict decoding fails for every codec but
    latin-1. *)
Record memory := Memory {
  files : list (Path * bytes);
  dirs : list (Path * list Path);
  loops : list Path
}.

Definition slash : Z := 0x2F.
Definition dot : Z := 0x2E.

Fixpoint assoc {A} (k : Path) (l : list (Path * A)) : option A :=
  match l with
  | [] => None
  | (k', a) :: r => if bool_decide (path_str k = path_str k') then Some a else assoc k r
  end.

(** The parts of [s] before and after the last [sep]. *)
Fixpoint split_last (sep : Z) (s : list Z) : option (list Z * list Z) :=
  match s with
  | [] => None
  | ch :: r =>
      match split_last sep r with
      | Some (a, b) => Some (ch :: a, b)
      | None => if bool_decide (ch = sep) then Some ([], r) else None
      end
  end.

Definition dirname (s : list Z) : list Z :=
  match split_last slash s with Some (a, _) => a | None => [] end.
Definition basename (s : list Z) : list Z :=
  match split_last slash s with Some (_, b) => b | None => s end.
Definition extension (s : list Z) : list Z :=
  match split_last dot (basename s) with
  | Some (_ :: _, (_ :: _) as b) => dot :: b
  | _ => []
  end.

Definition memory_host (m : memory) : host := {|
  codec := fun _ _ => None;
  utf_8_replace := latin_1;
  read_bytes := fun p =>
    match assoc p (files m) with Some raw => Ok raw | None => Raise OSError end;
  path_of := mkPath;
  is_absolute := fun p =>
    match path_str p with ch :: _ => bool_decide (ch = slash) | [] => false end;
  parent := fun p => mkPath (dirname (path_str p));
  joinpath := fun p q => mkPath (path_str p ++ [slash] ++ path_str q);
  suffix := fun p => extension (path_str p);
  resolve := fun p =>
    if bool_decide (path_str p ∈ path_str <$> loops m) then Raise RuntimeError else Ok p;
  exists_ := fun p =>
    Ok (bool_decide (is_Some (assoc p (files m)))
        || bool_decide (is_Some (assoc p (dirs m))));
  iterdir := fun p =>
    match assoc p (dirs m) with Some ps => Ok ps | None => Raise OSError end;
  is_file := fun p => Ok (bool_decide (is_Some (assoc p (files m))))
|}.

(** The bytes of a text of latin-1 characters. *)
Definition ascii_bytes (text : list Z) : bytes :=
  (fun ch => default Byte.x00 (Byte.of_N (Z.to_N ch))) <$> text.

(** A line [KEYWORD "text"] followed by [more], and the lines of a sheet
    joined by newlines. *)
Definition quoted_line (keyword text more : string) : list Z :=
  py keyword ++ py " " ++ [dquote] ++ py text ++ [dquote] ++ py more.
Definition sheet (lines : list (list Z)) : list Z :=
  concat ((fun l => l ++ [0xA]) <$> lines).

Definition path (s : string) : Path := mkPath (py s).

(** The sheet of the example: two tracks in one file. *)
Definition album_sheet : list Z := sheet [
  quoted_line "PERFORMER" "Test Artist" "";
  quoted_line "TITLE" "Test Album" "";
  quoted_line "FILE" "a.wav" " WAVE";
  py "TRACK 01 AUDIO";
  py "TRACK 02 AUDIO";
  quoted_line "PERFORMER" "Other" ""
].

(** A sheet with one track and two files. *)
Definition two_files_sheet : list Z := sheet [
  quoted_line "FILE" "a.wav" " WAVE";
  py "  TRACK 01 AUDIO";
  quoted_line "FILE" "b.wav" " WAVE"
].

(** A sheet already split: two tracks, each in a file of its own. *)
Definition split_sheet : list Z := sheet [
  quoted_line "FILE" "a.wav" " WAVE";
  py "  TRACK 01 AUDIO";
  quoted_line "FILE" "b.wav" " WAVE";
  py "  TRACK 02 AUDIO"
].

(** A sheet with two tracks and no file. *)
Definition no_file_sheet : list Z := sheet [
  py "TRACK 01 AUDIO";
  py "TRACK 02 AUDIO"
].

(** A sheet whose file name is a symbolic link to itself. *)
Definition loop_sheet : list Z := sheet [
  quoted_line "FILE" "loop.wav" " WAVE";
  py "TRACK 01 AUDIO";
  py "TRACK 02 AUDIO"
].

Definition library : memory := {|
  files := [
    (path "/in/album.cue", ascii_bytes album_sheet);
    (path "/in/a.wav", []);
    (path "/in/two.cue", ascii_bytes two_files_sheet);
    (path "/in/empty.cue", []);
    (path "/in/split.cue", ascii_bytes split_sheet);
    (path "/in/nofile.cue", ascii_bytes no_file_sheet);
    (path "/in/loop.cue", ascii_bytes loop_sheet);
    (path "/out/full/01.flac", []);
    (path "/out/full/02.WAV", []);
    (path "/out/full/cover.jpg", []);
    (path "/out/part/01.flac", [])
  ];
  dirs := [
    (path "/in", [path "/in/album.cue"; path "/in/a.wav"; path "/in/two.cue";
               path "/in/empty.cue"; path "/in/loop.cue"]);
    (path "/out/full", [path "/out/full/01.flac"; path "/out/full/02.WAV";
                     path "/out/full/cover.jpg"; path "/out/full/sub"]);
    (path "/out/full/sub", []);
    (path "/out/part", [path "/out/part/01.flac"])
  ];
  loops := [path "/in/loop.wav"]
|}.

(** ** Further definitions used to state properties *)

(** The characters that some branch of the first loop takes up: the plain
    ones, the tab, and the code points of the table's range. *)
Definition in_alphabet (ch : Z) : bool :=
  is_plain ch || bool_decide ([ch] = [9])
  || (LATIN_MAP_BEGIN <=? ch) && (ch <? LATIN_MAP_END).

(** A tab read as a space. *)
Definition untab (ch : Z) : Z := if bool_decide (ch = 9) then 32 else ch.

(** What a pattern matches, said without a matcher: the string splits
    into one run of characters per item, each run made of characters of
    the item's class and as long as its quantifier allows, and what is left
    is the end of the string.  The runs of the groups are the captures. *)
Definition fits (q : quant) (w : list Z) : Prop :=
  match q with
  | One => length w = 1%nat
  | Star => True
  | Plus => w <> []
  end.

Inductive matches : list item -> list Z -> list (list Z) -> Prop :=
| matches_end s : at_end s = true -> matches [] s []
| matches_item it p w s gs :
    Forall (fun ch => cls it ch = true) w -> fits (rep it) w ->
    matches p s gs ->
    matches (it :: p) (w ++ s) (with_group it w gs).

(** A run of whitespace, a keyword written in any case, a quoted text. *)
Definition blank (w : list Z) : Prop := Forall (fun ch => is_space ch = true) w.
Definition spells (k : list Z) (keyword : string) : Prop :=
  casefold <$> k = casefold <$> py keyword.
Definition in_quotes (w : list Z) : list Z := [dquote] ++ w ++ [dquote].

(** A line [KEYWORD "text"]: optional whitespace, the keyword in any
    case, whitespace, the text in double quotes, not empty and free of
    double quotes, and [rest]. *)
Definition quoted_shape (keyword : string) (line w rest : list Z) : Prop :=
  exists ws1 k ws2,
    line = ws1 ++ k ++ ws2 ++ in_quotes w ++ rest
    /\ blank ws1 /\ spells k keyword /\ blank ws2 /\ ws2 <> []
    /\ w <> [] /\ (dquote ∉ w).

(** A word without whitespace. *)
Definition solid (t : list Z) : Prop := Forall (fun ch => is_space ch = false) t.

(** A second machine in memory: a sheet that names one absolute file
    twice, and a sheet whose file is missing. *)
Definition absolute_sheet : list Z := sheet [
  quoted_line "FILE" "/music/a.wav" " WAVE";
  py "  TRACK 01 AUDIO";
  quoted_line "FILE" "/music/a.wav" " WAVE";
  py "  TRACK 02 AUDIO"
].

Definition missing_sheet : list Z := sheet [
  quoted_line "PERFORMER" "Sigur R" "";
  quoted_line "FILE" "gone.wav" " WAVE";
  py "  TRACK 01 AUDIO";
  py "  TRACK 02 AUDIO"
].

Definition shelf : memory := {|
  files := [
    (path "/in/abs.cue", ascii_bytes absolute_sheet);
    (path "/in/missing.cue", ascii_bytes missing_sheet);
    (path "/music/a.wav", []);
    (path "/out/01.flac", [])
  ];
  dirs := [
    (path "/in", [path "/in/abs.cue"; path "/in/missing.cue"]);
    (path "/out", [path "/out/01.flac"; path "/out/02.flac"])
  ];
  loops := []
|}.

(** The host [h] on which [is_file] raises for the path [bad]. *)
Definition unreadable_entry (h : host) (bad : Path) : host := {|
  codec := codec h;
  utf_8_replace := utf_8_replace h;
  read_bytes := read_bytes h;
  path_of := path_of h;
  is_absolute := is_absolute h;
  parent := parent h;
  joinpath := joinpath h;
  suffix := suffix h;
  resolve := resolve h;
  exists_ := exists_ h;
  iterdir := iterdir h;
  is_file := fun q => if bool_decide (q = bad) then Raise OSError else is_file h q
|}.

(** ** The release directory

    The operations on pure paths that [output_release_dir] adds to those
    of the host: [p / name] for a string, [p.relative_to(base)], where
    [None] is [ValueError], and [p.name]. *)
Record pure_paths := PurePaths {
  join_name : Path -> list Z -> Path;
  relative_to : Path -> Path -> option Path;
  name : Path -> list Z
}.

(** [sanitize_name(album) if album else "no album"]. *)
Definition album_or_default (album : list Z) : result (list Z) :=
  match album with
  | _ :: _ => sanitize_name album
  | [] => Ok (py "no album")
  end.

Definition candidate_artist_album (artist album : list Z)
  : result (list (list Z * list Z)) :=
  sanitize_name artist ≫= fun sanitized_artist : list Z =>
  album_or_default album ≫= fun sanitized_album : list Z =>
  Ok [(sanitized_artist, sanitized_album)].

(** The loop over the candidates: the first candidate directory that
    exists, if any. *)
Fixpoint first_existing (h : host) (x : pure_paths) (outdir : Path)
    (cands : list (list Z * list Z)) : result (option Path) :=
  match cands with
  | [] => Ok None
  | (cand_artist, cand_album) :: rest =>
      let cand_dir := join_name x (join_name x outdir cand_artist) cand_album in
      exists_ h cand_dir ≫= fun e : bool =>
      if e then Ok (Some cand_dir) else first_existing h x outdir rest
  end.

Definition output_release_dir (h : host) (x : pure_paths) (cue basedir outdir : Path)
  : result Path :=
  parse_cue_artist_album h cue ≫= fun '(artist, album) =>
  if bool_decide (is_Some artist) || bool_decide (is_Some album) then
    let artist_value := default [] artist in
    let album_value := default [] album in
    candidate_artist_album artist_value album_value ≫= fun cands =>
    first_existing h x outdir cands ≫= fun found : option Path =>
    match found with
    | Some cand_dir => Ok cand_dir
    | None =>
        sanitize_name artist_value ≫= fun sanitized_artist : list Z =>
        album_or_default album_value ≫= fun sanitized_album : list Z =>
        Ok (join_name x (join_name x outdir sanitized_artist) sanitized_album)
    end
  else
    match relative_to x (parent h cue) basedir with
    | Some rel_parent => Ok (joinpath h outdir rel_parent)
    | None => Ok (join_name x outdir (name x (parent h cue)))
    end.

(** The pure paths of the machines in memory: [base] is cut off when it
    is a prefix that ends at a [/]. *)
Fixpoint strip_prefix (base s : list Z) : option (list Z) :=
  match base, s with
  | [], [] => Some []
  | [], ch :: r => if bool_decide (ch = slash) then Some r else None
  | b :: base', ch :: r => if bool_decide (b = ch) then strip_prefix base' r else None
  | _ :: _, [] => None
  end.

Definition memory_paths : pure_paths := {|
  join_name := fun p s =>
    match s with [] => p | _ => mkPath (path_str p ++ [slash] ++ s) end;
  relative_to := fun p base => mkPath <$> strip_prefix (path_str base) (path_str p);
  name := fun p => basename (path_str p)
|}.

(** ** Running the tool

    What [run_flacsplit] and [main] ask beyond reading: creating a
    directory and running a command change the file system, so each gives
    the host as it is afterwards, also when it raises. *)
Record machine := Machine {
  (** [p.mkdir(parents=True, exist_ok=True)]. *)
  mkdir : host -> Path -> host * result unit;
  (** [subprocess.run(cmd, capture_output=True, text=True)]: the return
      code and the two captured texts. *)
  subprocess_run : host -> list (list Z) -> host * result (Z * list Z * list Z);
  (** [str(e)] of an exception raised by a library. *)
  exception_text : exn -> list Z;
  (** [p.expanduser()], [shutil.which(name)], [p.is_dir()],
      [p.rglob(pattern)] and [sorted] on paths. *)
  expanduser : Path -> result Path;
  which : host -> list Z -> option (list Z);
  is_dir : host -> Path -> result bool;
  rglob : host -> Path -> list Z -> result (list Path);
  sorted : list Path -> list Path
}.

(** The file system and what has been printed to the two streams, one
    entry per call of [print], the last call first. *)
Record world := World { fs : host; out : list (list Z); err : list (list Z) }.

Definition print (w : world) (text : list Z) : world :=
  {| fs := fs w; out := text :: out w; err := err w |}.
Definition print_err (w : world) (text : list Z) : world :=
  {| fs := fs w; out := out w; err := text :: err w |}.
Definition with_fs (w : world) (h : host) : world :=
  {| fs := h; out := out w; err := err w |}.

(** An exception caught by [main], with the text that [str(e)] gives. *)
Record thrown := Thrown { class : exn; text : list Z }.

(** [sep.join(words)]. *)
Fixpoint join (sep : list Z) (words : list (list Z)) : list Z :=
  match words with
  | [] => []
  | [word] => word
  | word :: rest => word ++ sep ++ join sep rest
  end.

Definition newline : list Z := [0xA].

Definition run_flacsplit (m : machine) (w : world) (cue out_root : Path)
    (resample : Z) (dry_run : bool) : world * option thrown :=
  let cmd := [py "flacsplit";
              py "-r"; str_of_int resample;
              py "-O"; path_str out_root;
              path_str cue] in
  if dry_run then (print w (py "  [DRY RUN] Would run: " ++ join (py " ") cmd), None)
  else
    let '(h1, made) := mkdir m (fs w) out_root in
    match made with
    | Raise e => (with_fs w h1, Some (Thrown e (exception_text m e)))
    | Ok _ =>
        let '(h2, proc) := subprocess_run m h1 cmd in
        match proc with
        | Raise e => (with_fs w h2, Some (Thrown e (exception_text m e)))
        | Ok (returncode, stdout, stderr) =>
            if bool_decide (returncode <> 0) then
              (with_fs w h2,
               Some (Thrown RuntimeError
                       (py "flacsplit failed with code " ++ str_of_int returncode
                        ++ newline ++ py "STDOUT: " ++ stdout
                        ++ newline ++ py "STDERR: " ++ stderr)))
            else (with_fs w h2, None)
        end
    end.

(** [ensure_tools]: [Some 2] is [sys.exit(2)]. *)
Definition ensure_tools (m : machine) (w : world) : world * option Z :=
  match which m (fs w) (py "flacsplit") with
  | None => (print_err w (py "ERROR: Missing required tool: flacsplit"), Some 2)
  | Some _ => (w, None)
  end.

(** The parsed arguments of the command line. *)
Record arguments := Arguments {
  arg_basedir : list Z;
  arg_outdir : list Z;
  arg_resample : Z;
  arg_dry_run : bool;
  arg_force : bool
}.

(** The counters of [main]. *)
Record stats := Stats { processed : Z; skipped : Z; failed : Z }.

(** The text printed for a release directory: its path under [outdir],
    or its name when it is not under [outdir]. *)
Definition rel_text (x : pure_paths) (out_release_dir outdir : Path) : list Z :=
  match relative_to x out_release_dir outdir with
  | Some rel_path => path_str rel_path
  | None => name x out_release_dir
  end.

(** What is printed after a run of the tool: the [try] block after
    [run_flacsplit]. *)
Definition verify_output (w : world) (cue out_release_dir : Path)
  : world * option exn :=
  match count_audio_files (fs w) out_release_dir with
  | Raise e => (w, Some e)
  | Ok result_count =>
      match count_cue_tracks (fs w) cue with
      | Raise e => (w, Some e)
      | Ok expected_count =>
          if result_count <? expected_count
          then (print w (py "  WARNING: Expected " ++ str_of_int expected_count
                         ++ py " tracks, got " ++ str_of_int result_count), None)
          else (print w (py "  " ++ [0xE2; 0x153; 0x201C] ++ py " Created "
                         ++ str_of_int result_count ++ py " tracks"), None)
      end
  end.

(** One iteration of [for cue in cues]; an exception raised outside the
    [try] block ends [main]. *)
Definition process_cue (m : machine) (x : pure_paths) (args : arguments)
    (basedir outdir : Path) (w : world) (st : stats) (cue : Path)
  : world * result stats :=
  match output_release_dir (fs w) x cue basedir outdir with
  | Raise e => (w, Raise e)
  | Ok out_release_dir =>
      let rel_path := rel_text x out_release_dir outdir in
      match should_process (fs w) cue out_release_dir (arg_force args) with
      | Raise e => (w, Raise e)
      | Ok (should_proc, reason) =>
          if negb should_proc then
            (print w (py "SKIP: " ++ rel_path ++ py " - " ++ reason),
             Ok (Stats (processed st) (skipped st + 1) (failed st)))
          else
            let w1 := print w (py "SPLIT: " ++ rel_path ++ py " - " ++ reason) in
            let '(w2, caught) :=
              match run_flacsplit m w1 cue outdir (arg_resample args) (arg_dry_run args) with
              | (w2, Some e) => (w2, Some e)
              | (w2, None) =>
                  if negb (arg_dry_run args) then
                    match verify_output w2 cue out_release_dir with
                    | (w3, Some e) => (w3, Some (Thrown e (exception_text m e)))
                    | (w3, None) => (w3, None)
                    end
                  else (w2, None)
              end in
            match caught with
            | None => (w2, Ok (Stats (processed st + 1) (skipped st) (failed st)))
            | Some e =>
                (print_err w2 (py "FAILED: " ++ rel_path ++ py " - " ++ text e),
                 Ok (Stats (processed st) (skipped st) (failed st + 1)))
            end
      end
  end.

Fixpoint main_loop (m : machine) (x : pure_paths) (args : arguments)
    (basedir outdir : Path) (w : world) (st : stats) (cues : list Path)
  : world * result stats :=
  match cues with
  | [] => (w, Ok st)
  | cue :: rest =>
      match process_cue m x args basedir outdir w st cue with
      | (w', Ok st') => main_loop m x args basedir outdir w' st' rest
      | (w', Raise e) => (w', Raise e)
      end
  end.

(** How [main] ends: with an exit status, or with an exception that
    nothing catches. *)
Inductive ending := Exit (status : Z) | Uncaught (e : exn).

(** [Path(arg).expanduser().resolve()]. *)
Definition resolved (m : machine) (h : host) (arg : list Z) : result Path :=
  expanduser m (path_of h arg) ≫= resolve h.

Definition main (m : machine) (x : pure_paths) (args : arguments) (w : world)
  : world * ending :=
  match resolved m (fs w) (arg_basedir args) with
  | Raise e => (w, Uncaught e)
  | Ok basedir =>
  match resolved m (fs w) (arg_outdir args) with
  | Raise e => (w, Uncaught e)
  | Ok outdir =>
  match ensure_tools m w with
  | (w, Some status) => (w, Exit status)
  | (w, None) =>
  match exists_ (fs w) basedir with
  | Raise e => (w, Uncaught e)
  | Ok false =>
      (print_err w (py "ERROR: Base directory not found: " ++ path_str basedir), Exit 2)
  | Ok true =>
  match is_dir m (fs w) basedir with
  | Raise e => (w, Uncaught e)
  | Ok false =>
      (print_err w (py "ERROR: Base directory is not a directory: " ++ path_str basedir),
       Exit 2)
  | Ok true =>
  let w := print w (py "Scanning " ++ path_str basedir ++ py " for CUE files...") in
  match rglob m (fs w) basedir (py "*.cue") with
  | Raise e => (w, Uncaught e)
  | Ok lower_cues =>
  match rglob m (fs w) basedir (py "*.CUE") with
  | Raise e => (w, Uncaught e)
  | Ok upper_cues =>
  let cues := sorted m lower_cues ++ sorted m upper_cues in
  match cues with
  | [] => (print w (py "No CUE files found in " ++ path_str basedir), Exit 0)
  | _ =>
  let w := print w (py "Found " ++ str_of_int (len cues) ++ py " CUE file(s)" ++ newline) in
  match main_loop m x args basedir outdir w (Stats 0 0 0) cues with
  | (w, Raise e) => (w, Uncaught e)
  | (w, Ok st) =>
  let w := print w (newline ++ replicate 60 0x3D) in
  let w := print w (py "Summary: " ++ str_of_int (processed st) ++ py " processed, "
                    ++ str_of_int (skipped st) ++ py " skipped, "
                    ++ str_of_int (failed st) ++ py " failed") in
  let w := if arg_dry_run args
           then print w (newline ++ py "(This was a dry run - no files were actually split)")
           else w in
  (w, Exit (if failed st >? 0 then 1 else 0))
  end end end end end end end end end.

(** A machine over a memory whose tool changes nothing and returns
    [returncode]; listings are taken as sorted. *)
Definition memory_machine (mem : memory) (returncode : Z) : machine := {|
  mkdir := fun h _ => (h, Ok tt);
  subprocess_run := fun h _ => (h, Ok (returncode, [], py "cannot split"));
  exception_text := fun _ => py "error";
  expanduser := fun q => Ok q;
  which := fun _ tool => Some (py "/usr/bin/" ++ tool);
  is_dir := fun _ q => Ok (bool_decide (is_Some (assoc q (dirs mem))));
  rglob := fun _ _ pattern =>
    Ok (filter (fun q => extension (path_str q) = drop 1 pattern) (fst <$> files mem));
  sorted := fun ps => ps
|}.

Definition start (mem : memory) : world := World (memory_host mem) [] [].
Definition real_args : arguments := Arguments (py "/in") (py "/out") 48000 false false.

(** ** A machine that resolves paths

    [Path.resolve] on a machine without symbolic links whose working
    directory is the root: the path is read from the root, its empty
    components and the components [.] are dropped, and [..] leaves the
    directory entered last (the root is its own parent). *)
Fixpoint split_on (sep : Z) (s : list Z) : list (list Z) :=
  match s with
  | [] => [[]]
  | ch :: r =>
      if bool_decide (ch = sep) then [] :: split_on sep r
      else match split_on sep r with
           | w :: ws => (ch :: w) :: ws
           | [] => [[ch]]
           end
  end.

(** The directories entered so far, the last one first, after one more
    component. *)
Definition enter (entered : list (list Z)) (part : list Z) : list (list Z) :=
  if bool_decide (part = []) || bool_decide (part = [dot]) then entered
  else if bool_decide (part = [dot; dot]) then tail entered
  else part :: entered.

Definition canonical (s : list Z) : list Z :=
  match reverse (foldl enter [] (split_on slash s)) with
  | [] => [slash]
  | parts => concat ((fun part => slash :: part) <$> parts)
  end.

(** The machine of [memory_host] with this [resolve]. *)
Definition resolving_host (m : memory) : host := {|
  codec := codec (memory_host m);
  utf_8_replace := utf_8_replace (memory_host m);
  read_bytes := read_bytes (memory_host m);
  path_of := path_of (memory_host m);
  is_absolute := is_absolute (memory_host m);
  parent := parent (memory_host m);
  joinpath := joinpath (memory_host m);
  suffix := suffix (memory_host m);
  resolve := fun p =>
    if bool_decide (path_str p ∈ path_str <$> loops m) then Raise RuntimeError
    else Ok (mkPath (canonical (path_str p)));
  exists_ := exists_ (memory_host m);
  iterdir := iterdir (memory_host m);
  is_file := is_file (memory_host m)
|}.

(** A sheet that names its one audio file twice: by an absolute name that
    is not in canonical form, and by a name relative to the sheet. *)
Definition same_file_sheet : list Z := sheet [
  quoted_line "FILE" "/in/../in/a.wav" " WAVE";
  py "  TRACK 01 AUDIO";
  quoted_line "FILE" "a.wav" " WAVE";
  py "  TRACK 02 AUDIO"
].

Definition drive : memory := {|
  files := [
    (path "/in/dup.cue", ascii_bytes same_file_sheet);
    (path "/in/a.wav", [])
  ];
  dirs := [
    (path "/in", [path "/in/dup.cue"; path "/in/a.wav"])
  ];
  loops := []
|}.

(** Running a bind of the [result] monad whose first action is known. *)
Ltac result_step := cbn [mbind result_bind].

(** ** Properties of the sanitiser *)

Lemma between_spec lo hi l h ch :
  py lo = [l] -> py hi = [h] -> between lo hi ch = true <-> l <= ch <= h.
Proof.
  intros Hl Hh. unfold between. rewrite Hl, Hh.
  rewrite andb_true_iff, !Z.leb_le. tauto.
Qed.

Lemma isupper_spec ch : isupper ch = true <-> 65 <= ch <= 90.
Proof. unfold isupper. now apply between_spec. Qed.

Lemma is_plain_safe ch : is_plain ch = true <-> safe ch.
Proof.
  unfold is_plain, safe.
  rewrite !orb_true_iff, bool_decide_eq_true.
  rewrite (between_spec "0" "9" 48 57), (between_spec "A" "Z" 65 90),
    (between_spec "a" "z" 97 122) by reflexivity.
  change (py " ") with [32]. split.
  - intros [[[H|H]|H]|H]; auto. injection H. auto.
  - intros [H|[H|[H|H]]]; auto. subst. auto.
Qed.

Lemma safe_check (s : str) : forallb is_plain s = true -> Forall safe s.
Proof.
  rewrite forallb_forall. intros H. apply Forall_forall. intros ch Hch.
  apply is_plain_safe, H. now apply list_elem_of_In.
Qed.

Lemma lower_safe ch : safe ch -> safe (lower ch).
Proof.
  unfold lower. destruct (isupper ch) eqn:E; [|done].
  apply isupper_spec in E. unfold safe. lia.
Qed.

Lemma len_app {A} (l k : list A) : len (l ++ k) = len l + len k.
Proof. unfold len. rewrite length_app. lia. Qed.

Lemma len_nonneg {A} (l : list A) : 0 <= len l.
Proof. unfold len. lia. Qed.

(** Every entry of the table is made of safe characters. *)
Lemma LATIN_MAP_safe i mapped :
  LATIN_MAP !! i = Some (Some mapped) -> Forall safe mapped.
Proof.
  assert (H : forallb (fun o => match o with
                               | Some w => forallb is_plain w
                               | None => true
                               end) LATIN_MAP = true) by reflexivity.
  rewrite forallb_forall in H. intros Hi.
  apply list_elem_of_lookup_2, list_elem_of_In, H in Hi.
  apply Forall_forall. intros ch Hch.
  apply is_plain_safe. rewrite forallb_forall in Hi.
  apply Hi. now apply list_elem_of_In.
Qed.

Lemma truthy_Some o w : truthy o = Some w -> o = Some w /\ w <> [].
Proof. destruct o as [[|]|]; simpl; intros; simplify_eq; done. Qed.

(** [emit_step] appends the expansion of the character. *)
Lemma emit_step_expansion rc gi ch :
  emit_step (rc, gi) ch =
  (rc ++ (expansion ch).1,
   gi ++ if (expansion ch).2 then [len rc + len (expansion ch).1 - 1] else []).
Proof.
  unfold expansion, emit_step.
  destruct (is_plain ch); [simpl; now rewrite app_nil_r|].
  destruct (bool_decide ([ch] = [9])); [simpl; now rewrite app_nil_r|].
  destruct (_ && _); [|simpl; now rewrite !app_nil_r].
  destruct (truthy _) as [mapped|]; [|simpl; now rewrite !app_nil_r].
  destruct (second_is_upper mapped); simpl; [|now rewrite app_nil_r].
  rewrite len_app. done.
Qed.

Lemma expansion_safe ch : Forall safe (expansion ch).1.
Proof.
  unfold expansion, emit_step.
  destruct (is_plain ch) eqn:Hp; simpl.
  { apply Forall_singleton. now apply is_plain_safe. }
  destruct (bool_decide ([ch] = [9])); simpl.
  { apply Forall_singleton. right; left. reflexivity. }
  destruct (_ && _); [|constructor].
  destruct (truthy _) as [mapped|] eqn:Ht; [|constructor].
  apply truthy_Some in Ht as [Ht _].
  assert (Forall safe mapped).
  { destruct (LATIN_MAP !! _) as [o|] eqn:Hl; simpl in Ht; [|done].
    subst o. eapply LATIN_MAP_safe, Hl. }
  now destruct (second_is_upper mapped).
Qed.

(** A guessed expansion has at least two letters. *)
Lemma expansion_guessed ch : (expansion ch).2 = true -> (2 <= length (expansion ch).1)%nat.
Proof.
  unfold expansion, emit_step.
  destruct (is_plain ch); [done|].
  destruct (bool_decide ([ch] = [9])); [done|].
  destruct (_ && _); [|done].
  destruct (truthy _) as [mapped|]; [|done].
  destruct (second_is_upper mapped) eqn:Hs; [|done].
  intros _. simpl. unfold second_is_upper in Hs.
  apply andb_true_iff in Hs as [Hs _]. apply Z.leb_le in Hs. unfold len in Hs. lia.
Qed.

Lemma raw_cons ch r : raw (ch :: r) = (expansion ch).1 ++ raw r.
Proof. reflexivity. Qed.

Lemma render_cons ch r : render (ch :: r) = settle (expansion ch) (render r) ++ render r.
Proof. reflexivity. Qed.

(** The first loop, from any state. *)
Lemma emit_from value : forall rc gi,
  foldl emit_step (rc, gi) value = (rc ++ raw value, gi ++ guessed_from (len rc) value).
Proof.
  induction value as [|ch r IH]; intros rc gi.
  - simpl. now rewrite !app_nil_r.
  - cbn [foldl guessed_from]. rewrite emit_step_expansion, IH, raw_cons.
    rewrite len_app, <- !app_assoc. done.
Qed.

Lemma emit_raw value : emit value = (raw value, guessed_from 0 value).
Proof. unfold emit. now rewrite emit_from. Qed.

Lemma getitem_lookup {A} (l : list A) i :
  0 <= i ->
  getitem l i = match l !! Z.to_nat i with Some a => Ok a | None => Raise IndexError end.
Proof.
  intros Hi. unfold getitem, len.
  destruct (i <? 0) eqn:E; [apply Z.ltb_lt in E; lia|].
  destruct (0 <=? i) eqn:E0; [|apply Z.leb_gt in E0; lia]. simpl.
  destruct (i <? Z.of_nat (length l)) eqn:E1; [done|].
  apply Z.ltb_ge in E1. rewrite lookup_ge_None_2; [done|lia].
Qed.

Lemma setitem_insert {A} (l : list A) i a :
  0 <= i < len l -> setitem l i a = Ok (<[Z.to_nat i := a]> l).
Proof.
  intros Hi. unfold setitem.
  destruct (i <? 0) eqn:E; [apply Z.ltb_lt in E; lia|].
  destruct (0 <=? i) eqn:E0; [|apply Z.leb_gt in E0; lia].
  destruct (i <? len l) eqn:E1; [done|apply Z.ltb_ge in E1; lia].
Qed.

Lemma settle_length e rest : length (settle e rest) = length e.1.
Proof.
  destruct e as [w [|]]; [|done]. unfold settle. simpl.
  destruct rest as [|nxt ?]; [done|].
  destruct (isupper nxt); [done|]. apply length_alter.
Qed.

Lemma settle_head e rest :
  (e.2 = true -> (2 <= length e.1)%nat) -> head (settle e rest) = head e.1.
Proof.
  destruct e as [w [|]]; [|done]. unfold settle. simpl. intros He.
  destruct rest as [|nxt ?]; [done|]. destruct (isupper nxt); [done|].
  specialize (He eq_refl). destruct w as [|x [|y t]]; simpl in *; [done|lia|done].
Qed.

Lemma render_length value : length (render value) = length (raw value).
Proof.
  induction value as [|ch r IH]; [done|].
  rewrite render_cons, raw_cons, !length_app, settle_length. lia.
Qed.

(** The first character of the output is the first one emitted: no
    guessed index points at the head of an expansion. *)
Lemma render_head value : head (render value) = head (raw value).
Proof.
  induction value as [|ch r IH]; [done|].
  rewrite render_cons, raw_cons, !head_app, IH.
  now rewrite settle_head by apply expansion_guessed.
Qed.

(** The second loop at the index of a guessed expansion [e] that stands
    after [P] and before [rest]. *)
Lemma patch_step_guessed (P : str) (e : str * bool) (rest : str) :
  e.2 = true -> (2 <= length e.1)%nat ->
  patch_step (Ok (P ++ e.1 ++ rest)) (len P + len e.1 - 1)
  = Ok (P ++ settle e rest ++ rest).
Proof.
  intros Hg Hl. unfold settle. rewrite Hg.
  destruct (exists_last (l := e.1)) as (e0 & y & He).
  { intros E. rewrite E in Hl. simpl in Hl. lia. }
  rewrite He in *. clear He Hg.
  assert (Hidx : len P + len (e0 ++ [y]) - 1 = len (P ++ e0)).
  { rewrite !len_app. unfold len. simpl. lia. }
  rewrite Hidx. rewrite length_app, Nat.add_sub. simpl length.
  replace (P ++ (e0 ++ [y]) ++ rest) with ((P ++ e0) ++ y :: rest)
    by now rewrite <- !app_assoc.
  set (Q := P ++ e0). unfold patch_step. result_step.
  rewrite len_app.
  destruct rest as [|nxt t].
  - rewrite bool_decide_eq_false_2 by (unfold len; simpl; lia).
    unfold Q. now rewrite app_nil_r, <- !app_assoc.
  - rewrite bool_decide_eq_true_2 by (unfold len; simpl; lia).
    assert (Hq : 0 <= len Q) by apply len_nonneg.
    rewrite (getitem_lookup _ (len Q + 1)), (getitem_lookup _ (len Q)) by lia.
    replace (Z.to_nat (len Q + 1)) with (length Q + 1)%nat by (unfold len; lia).
    replace (Z.to_nat (len Q)) with (length Q + 0)%nat by (unfold len; lia).
    rewrite !lookup_app_r by lia.
    replace (length Q + 1 - length Q)%nat with 1%nat by lia.
    replace (length Q + 0 - length Q)%nat with 0%nat by lia.
    cbn [lookup list_lookup mbind result_bind].
    destruct (isupper nxt); cbn [negb mbind result_bind].
    { unfold Q. now rewrite <- !app_assoc. }
    rewrite setitem_insert by (rewrite len_app; unfold len; simpl; lia).
    replace (Z.to_nat (len Q)) with (length Q + 0)%nat by (unfold len; lia).
    rewrite insert_app_r. cbn [insert list_insert].
    replace (length e0) with (length e0 + 0)%nat by lia.
    rewrite alter_app_r. unfold Q.
    cbn [alter list_alter]. now rewrite <- !app_assoc.
Qed.

(** The second loop over the indexes of [value], whose expansions stand
    after [P]. *)
Lemma patch_from value : forall P : str,
  foldl patch_step (Ok (P ++ raw value)) (guessed_from (len P) value)
  = Ok (P ++ render value).
Proof.
  induction value as [|ch r IH]; intros P; [done|].
  cbn [guessed_from]. rewrite foldl_app, raw_cons, render_cons.
  assert (Hrest : settle (expansion ch) (render r) = settle (expansion ch) (raw r)).
  { unfold settle. pose proof (render_head r) as Hh.
    destruct (expansion ch).2; [|done].
    destruct (render r), (raw r); simpl in Hh; simplify_eq; done. }
  assert (Hstep : foldl patch_step (Ok (P ++ (expansion ch).1 ++ raw r))
            (if (expansion ch).2 then [len P + len (expansion ch).1 - 1] else [])
          = Ok ((P ++ settle (expansion ch) (render r)) ++ raw r)).
  { destruct (expansion ch).2 eqn:Hg.
    - cbn [foldl]. rewrite patch_step_guessed, Hrest, <- app_assoc;
        auto using expansion_guessed.
    - rewrite <- app_assoc. unfold settle. now rewrite Hg. }
  rewrite Hstep.
  replace (len P + len (expansion ch).1)
    with (len (P ++ settle (expansion ch) (render r)))
    by (rewrite len_app; unfold len; now rewrite settle_length).
  rewrite IH, <- app_assoc. done.
Qed.

(** The two loops of [sanitize_name] never raise, and build [render]. *)
Lemma sanitize_name_render value :
  sanitize_name value =
  Ok (if bool_decide (value = py "( )") then py "Untitled" else render value).
Proof.
  unfold sanitize_name. destruct (bool_decide _); [done|].
  rewrite emit_raw. apply (patch_from value []).
Qed.

Lemma settle_safe e rest : Forall safe e.1 -> Forall safe (settle e rest).
Proof.
  intros He. unfold settle. destruct e.2; [|done].
  destruct rest as [|nxt ?]; [done|]. destruct (isupper nxt); [done|].
  apply Forall_alter; auto using lower_safe.
Qed.

Lemma render_safe value : Forall safe (render value).
Proof.
  induction value as [|ch r IH]; [constructor|].
  rewrite render_cons. apply Forall_app. split; [|done].
  apply settle_safe, expansion_safe.
Qed.

Lemma expansion_plain ch : safe ch -> expansion ch = ([ch], false).
Proof.
  intros Hs. apply is_plain_safe in Hs. unfold expansion, emit_step. now rewrite Hs.
Qed.

Lemma render_plain value : Forall safe value -> render value = value.
Proof.
  induction 1 as [|ch r Hch Hr IH]; [done|].
  rewrite render_cons, IH, expansion_plain by done. done.
Qed.

(** The part of the output that stands before a suffix has the length of
    what the first loop emitted for the prefix. *)
Lemma render_prefix (pre : str) : forall base : str,
  exists X : str, foldr render_step base pre = X ++ base /\ length X = length (raw pre).
Proof.
  induction pre as [|ch r IH]; intros base.
  - now exists [].
  - destruct (IH base) as (X & HX & Hl). cbn [foldr]. unfold render_step at 1.
    exists (settle (expansion ch) (foldr render_step base r) ++ X). split.
    + rewrite HX at 2. now rewrite app_assoc.
    + rewrite raw_cons, !length_app, settle_length. lia.
Qed.

(** The expansion of a code point that the table maps to two letters. *)
Lemma expansion_mapped ch x y :
  LATIN_MAP_BEGIN <= ch < LATIN_MAP_END ->
  LATIN_MAP !! Z.to_nat (ch - LATIN_MAP_BEGIN) = Some (Some [x; y]) ->
  expansion ch = ([x; y], isupper y).
Proof.
  intros Hr Hm. unfold expansion, emit_step.
  assert (Hb : 192 <= ch) by (unfold LATIN_MAP_BEGIN in Hr; lia).
  destruct (is_plain ch) eqn:Hp.
  { apply is_plain_safe in Hp. unfold safe in Hp. lia. }
  rewrite bool_decide_eq_false_2 by (intros [= ?]; lia).
  replace ((LATIN_MAP_BEGIN <=? ch) && (ch <? LATIN_MAP_END)) with true
    by (symmetry; apply andb_true_iff; split; [apply Z.leb_le|apply Z.ltb_lt]; lia).
  rewrite Hm. cbn [mjoin option_join truthy mbind option_bind].
  unfold second_is_upper. change (2 <=? len [x; y]) with true.
  change (getitem [x; y] 1) with (Ok (A := Z) y). cbn [andb].
  destruct (isupper y); done.
Qed.

(** C6: for every input string, [sanitize_name] returns a string all of
    whose characters are ASCII letters, ASCII digits or spaces; this
    includes the special-cased input [( )]. *)
Theorem sanitize_name_output_safe (value : str) :
  exists out : str, sanitize_name value = Ok out /\ Forall safe out.
Proof.
  eexists. split; [apply sanitize_name_render|].
  destruct (bool_decide _); [|apply render_safe].
  now apply safe_check.
Qed.

(** C7: on a string made only of ASCII letters, ASCII digits and spaces,
    [sanitize_name] returns the string itself. *)
Theorem sanitize_name_identity (value : str) :
  Forall safe value -> sanitize_name value = Ok value.
Proof.
  intros Hs. rewrite sanitize_name_render.
  rewrite bool_decide_eq_false_2; [now rewrite render_plain|].
  intros ->. apply Forall_cons in Hs as [Hs _]. change (safe 40) in Hs.
  unfold safe in Hs. lia.
Qed.

Lemma sanitize_name_identity_witness :
  Forall safe (py "Pink Floyd 1973") /\
  sanitize_name (py "Pink Floyd 1973") = Ok (py "Pink Floyd 1973").
Proof.
  assert (H : Forall safe (py "Pink Floyd 1973")) by now apply safe_check.
  split; [exact H | exact (sanitize_name_identity _ H)].
Defined.

(** C1: let a code point that the table maps to two letters [x y] stand
    between [pre] and [post], and let [k] be the number of characters
    emitted for [pre].  In the output of [sanitize_name] the first letter
    stands at [k] unchanged; the second letter, at [k + 1], is lowercased
    when it is uppercase and the character at [k + 2] of the output is not
    uppercase, and is unchanged otherwise: when no character follows, when
    the follower is uppercase, or when the second letter is not
    uppercase. *)
Theorem sanitize_name_guessed_case (pre post : str) (ch x y : Z) :
  LATIN_MAP_BEGIN <= ch < LATIN_MAP_END ->
  LATIN_MAP !! Z.to_nat (ch - LATIN_MAP_BEGIN) = Some (Some [x; y]) ->
  let k := length (emit pre).1 in
  exists out : str,
    sanitize_name (pre ++ ch :: post) = Ok out /\
    out !! k = Some x /\
    out !! (k + 1)%nat =
      Some (match out !! (k + 2)%nat with
            | Some nxt => if isupper y && negb (isupper nxt) then lower y else y
            | None => y
            end).
Proof.
  intros Hr Hm k. eexists. split; [apply sanitize_name_render|].
  rewrite bool_decide_eq_false_2.
  2:{ intros E. assert (Hin : ch ∈ pre ++ ch :: post).
      { apply elem_of_app. right. apply list_elem_of_here. }
      rewrite E in Hin. unfold LATIN_MAP_BEGIN in Hr.
      change (py "( )") with [40; 32; 41] in Hin.
      apply list_elem_of_In in Hin. simpl in Hin. lia. }
  unfold render. rewrite foldr_app. fold (render (ch :: post)).
  destruct (render_prefix pre (render (ch :: post))) as (X & -> & HX).
  assert (Hk : k = length X).
  { unfold k. now rewrite emit_raw. }
  rewrite render_cons, (expansion_mapped ch x y) by done.
  rewrite Hk. clear Hk k.
  rewrite (lookup_app_r X _ (length X)), (lookup_app_r X _ (length X + 1)),
    (lookup_app_r X _ (length X + 2)) by lia.
  replace (length X - length X)%nat with 0%nat by lia.
  replace (length X + 1 - length X)%nat with 1%nat by lia.
  replace (length X + 2 - length X)%nat with 2%nat by lia.
  unfold settle. cbn [fst snd].
  destruct (render post) as [|nxt t]; destruct (isupper y);
    try destruct (isupper nxt) eqn:En; simpl; rewrite ?En; auto.
Qed.

Lemma sanitize_name_guessed_case_witness :
  exists out : list Z,
    sanitize_name ([] ++ 0xC6 :: py "gis") = Ok out /\
    out !! 0%nat = Some 65 /\
    out !! 1%nat =
      Some (match out !! 2%nat with
            | Some nxt => if isupper 69 && negb (isupper nxt) then lower 69 else 69
            | None => 69
            end).
Proof.
  apply (sanitize_name_guessed_case [] (py "gis") 0xC6 65 69);
    [vm_compute; split; [discriminate|reflexivity] | reflexivity].
Defined.

(** Sample runs: a digraph before a small letter, before a capital, at
    the end of the name, and characters that are dropped. *)
Example sanitize_name_small : sanitize_name (0xC6 :: py "gis") = Ok (py "Aegis").
Proof. reflexivity. Qed.
Example sanitize_name_capital : sanitize_name (0xC6 :: py "GIS") = Ok (py "AEGIS").
Proof. reflexivity. Qed.
Example sanitize_name_last : sanitize_name (py "Encyclop" ++ [0xC6]) = Ok (py "EncyclopAE").
Proof. reflexivity. Qed.
Example sanitize_name_dropped : sanitize_name (py "AC/DC (live)" ++ [0xD7; 0x416]) = Ok (py "ACDC live").
Proof. reflexivity. Qed.
Example sanitize_name_untitled : sanitize_name (py "( )") = Ok (py "Untitled").
Proof. reflexivity. Qed.


(** ** Properties of the patterns *)

Lemma is_space_spec ch :
  is_space ch = true <->
  9 <= ch <= 13 \/ 28 <= ch <= 32 \/ ch = 0x85 \/ ch = 0xA0 \/ ch = 0x1680
  \/ 0x2000 <= ch <= 0x200A \/ ch = 0x2028 \/ ch = 0x2029 \/ ch = 0x202F
  \/ ch = 0x205F \/ ch = 0x3000.
Proof.
  unfold is_space.
  rewrite !orb_true_iff, !andb_true_iff, !Z.leb_le, !bool_decide_eq_true.
  rewrite !elem_of_cons, !elem_of_nil. lia.
Qed.

(** Whitespace has no case. *)
Lemma is_space_casefold ch : is_space ch = true -> casefold ch = ch.
Proof.
  intros Hs. apply is_space_spec in Hs. unfold casefold.
  destruct (isupper ch) eqn:Hu; [apply isupper_spec in Hu; lia|].
  repeat case_bool_decide; try done; set_unfold; lia.
Qed.

(** A character that matches a letter of a pattern is not whitespace. *)
Lemma lit_not_space c ch :
  97 <= casefold c <= 122 -> cls (lit c) ch = true -> is_space ch = false.
Proof.
  intros Hc Hm. simpl in Hm. apply bool_decide_eq_true in Hm.
  destruct (is_space ch) eqn:Hs; [|done].
  pose proof (is_space_casefold _ Hs) as Hf. apply is_space_spec in Hs. lia.
Qed.

(** When [\s*] followed by the rest [k] of a pattern matches, the rest
    matches where the leading whitespace ends. *)
Lemma repeat_space_head (Q : Z -> Prop) (k : list Z -> option (list (list Z))) :
  (forall s', is_Some (k s') -> exists ch, head s' = Some ch /\ Q ch) ->
  (forall ch, Q ch -> is_space ch = false) ->
  forall s, is_Some (repeat_cls is_space k s) ->
  exists ch, head (lstrip s) = Some ch /\ Q ch.
Proof.
  intros Hk HQ. induction s as [|ch r IH]; intros Hm.
  - simpl in Hm. apply fmap_is_Some in Hm. destruct (Hk _ Hm) as (? & ? & _). done.
  - cbn [repeat_cls lstrip] in *. destruct (is_space ch) eqn:Hs.
    + destruct (repeat_cls is_space k r) as [[w gs]|] eqn:Hr.
      * apply IH. done.
      * apply fmap_is_Some in Hm. destruct (Hk _ Hm) as (c & [= ->] & Hc).
        apply HQ in Hc. congruence.
    + apply fmap_is_Some in Hm. apply (Hk _ Hm).
Qed.

(** A line that matches a pattern beginning [\s*] and a letter has that
    letter first after its leading whitespace. *)
Lemma match_keyword c rest line :
  97 <= casefold c <= 122 ->
  is_Some (re_match (s_star :: lit c :: rest) line) ->
  exists ch, head (lstrip line) = Some ch /\ casefold ch = casefold c.
Proof.
  intros Hc Hm. unfold re_match in Hm. cbn [run rep s_star cls] in Hm.
  apply fmap_is_Some in Hm.
  apply (repeat_space_head (fun ch => casefold ch = casefold c)) in Hm; [done| |].
  - intros [|ch r] Hs; cbn [run rep lit cls] in Hs; [by destruct Hs|].
    case_bool_decide; [eauto|by destruct Hs].
  - intros ch Hch. apply (lit_not_space c); [done|]. simpl. now apply bool_decide_eq_true.
Qed.

(** No line is both a [PERFORMER] line and a [TITLE] line. *)
Lemma performer_not_title line :
  is_Some (re_match PERFORMER_RE line) -> re_match TITLE_RE line = None.
Proof.
  intros HP. destruct (re_match TITLE_RE line) eqn:HT; [|done]. exfalso.
  apply (match_keyword 80 (drop 2 PERFORMER_RE)) in HP as (ch & Hh & Hc);
    [|by vm_compute].
  assert (HT' : is_Some (re_match (s_star :: lit 84 :: drop 2 TITLE_RE) line))
    by (change (s_star :: lit 84 :: drop 2 TITLE_RE) with TITLE_RE; eauto).
  apply match_keyword in HT' as (ch' & Hh' & Hc'); [|by vm_compute].
  rewrite Hh in Hh'. injection Hh' as <-. rewrite Hc in Hc'. discriminate Hc'.
Qed.

(** ** Properties of the cue parser *)

(** The loop of [parse_cue_artist_album] from any state. *)
Lemma artist_album_loop_spec lines : forall artist album,
  artist_album_loop lines artist album =
  (or_else artist (first_capture PERFORMER_RE (before_track lines)),
   or_else album (first_capture TITLE_RE (before_track lines))).
Proof.
  induction lines as [|line rest IH]; intros artist album.
  - by destruct artist, album.
  - cbn [artist_album_loop before_track]. unfold is_track.
    destruct (bool_decide (is_Some (re_match TRACK_RE line))).
    { by destruct artist, album. }
    cbn [first_capture].
    destruct artist as [a|].
    + destruct album as [b|].
      * rewrite IH. done.
      * destruct (re_match TITLE_RE line); rewrite IH; done.
    + destruct (re_match PERFORMER_RE line) as [gs|] eqn:HP.
      * rewrite IH, performer_not_title by (rewrite HP; eauto). done.
      * destruct album as [b|].
        -- rewrite IH. done.
        -- destruct (re_match TITLE_RE line); rewrite IH; done.
Qed.

Lemma before_track_app pre marker rest :
  Forall (fun line => is_track line = false) pre -> is_track marker = true ->
  before_track (pre ++ marker :: rest) = pre.
Proof.
  induction 1 as [|line pre Hl Hpre IH]; intros Hm; simpl.
  - now rewrite Hm.
  - rewrite Hl, IH by done. done.
Qed.



(** The sheet of the example: its parsers give the artist and album, two
    tracks, and the one file. *)
Example album_sheet_parsed :
  parse_cue_artist_album (memory_host library) (path "/in/album.cue")
    = Ok (Some (py "Test Artist"), Some (py "Test Album"))
  /\ count_cue_tracks (memory_host library) (path "/in/album.cue") = Ok 2
  /\ parse_cue_files (memory_host library) (path "/in/album.cue") = Ok [path "/in/a.wav"].
Proof. repeat split; reflexivity. Qed.

(** ** Properties of the text decoder *)

Lemma latin_1_no_replacement raw : REPLACEMENT ∉ latin_1 raw.
Proof.
  unfold latin_1. intros Hin. apply list_elem_of_fmap in Hin as (b & Hb & _).
  pose proof (Byte.to_N_bounded b). unfold REPLACEMENT in Hb. lia.
Qed.

(** A loop over encodings that end with latin-1 returns from within. *)
Lemma try_encodings_latin_1 h raw encs :
  exists text, try_encodings h (encs ++ ["latin-1"%string]) raw = Some text.
Proof.
  induction encs as [|enc encs IH]; cbn [try_encodings app].
  - unfold decode. rewrite bool_decide_eq_true_2 by done.
    rewrite bool_decide_eq_true_2 by apply latin_1_no_replacement. eauto.
  - destruct (decode h enc raw) as [text|]; [|done].
    case_bool_decide; eauto.
Qed.

(** What the loop returns is a strict decoding without U+FFFD. *)
Lemma try_encodings_Some h raw encs text :
  try_encodings h encs raw = Some text ->
  exists enc, enc ∈ encs /\ decode h enc raw = Some text /\ REPLACEMENT ∉ text.
Proof.
  induction encs as [|enc encs IH]; cbn [try_encodings]; [done|].
  intros Ht.
  assert (Hrest : try_encodings h encs raw = Some text ->
                  exists enc', enc' ∈ enc :: encs /\ decode h enc' raw = Some text
                               /\ REPLACEMENT ∉ text).
  { intros H. destruct (IH H) as (enc' & ? & ? & ?).
    exists enc'. split; [now apply list_elem_of_further|done]. }
  destruct (decode h enc raw) as [text'|] eqn:Hd; [|auto].
  case_bool_decide as Hr; [|auto].
  injection Ht as ->. exists enc. split; [apply list_elem_of_here|done].
Qed.

(** The loop does not consult the fallback decoder. *)
Lemma try_encodings_with_fallback h f raw encs :
  try_encodings (with_fallback h f) encs raw = try_encodings h encs raw.
Proof. induction encs as [|enc encs IH]; [done|]. cbn [try_encodings]. now rewrite IH. Qed.

(** C10: strict latin-1 decoding, the last encoding tried, succeeds on
    every byte sequence and its result holds no U+FFFD.  So the loop of
    [read_text_guessing] always returns from within: its result is the
    strict decoding of the bytes by one of the encodings and holds no
    U+FFFD.  The lossy fallback is never reached: whatever decoder stands
    in its place, [read_text_guessing] returns the same. *)
Theorem read_text_guessing_no_fallback (h : host) (raw : bytes) :
  decode h "latin-1" raw = Some (latin_1 raw)
  /\ (REPLACEMENT ∉ latin_1 raw)
  /\ (exists enc text,
       try_encodings h ENCODINGS raw = Some text
       /\ enc ∈ ENCODINGS
       /\ decode h enc raw = Some text
       /\ (REPLACEMENT ∉ text)
       /\ decode_guessing h raw = text)
  /\ forall (fallback : bytes -> list Z) (path : Path),
       read_text_guessing (with_fallback h fallback) path = read_text_guessing h path.
Proof.
  assert (Hloop : forall h', exists text, try_encodings h' ENCODINGS raw = Some text).
  { intros h'. apply (try_encodings_latin_1 h' raw
      ["utf-8-sig"; "utf-16"; "utf-16le"; "utf-16be"; "cp1251"]%string). }
  split; [done|]. split; [apply latin_1_no_replacement|]. split.
  - destruct (Hloop h) as (text & Ht).
    destruct (try_encodings_Some _ _ _ _ Ht) as (enc & Hin & Hd & Hr).
    exists enc, text. unfold decode_guessing. now rewrite Ht.
  - intros fallback path. unfold read_text_guessing.
    change (read_bytes (with_fallback h fallback)) with (read_bytes h).
    destruct (read_bytes h path) as [raw'|e]; [|done]. result_step.
    f_equal. unfold decode_guessing. rewrite try_encodings_with_fallback.
    assert (H' : exists text, try_encodings h ENCODINGS raw' = Some text).
    { apply (try_encodings_latin_1 h raw'
        ["utf-8-sig"; "utf-16"; "utf-16le"; "utf-16be"; "cp1251"]%string). }
    destruct H' as (text & ->). done.
Qed.

(** ** Properties of the decision engine *)

(** The two parsers that touch no path after the read never raise. *)
Lemma count_cue_tracks_total h cue : exists n, count_cue_tracks h cue = Ok n /\ 0 <= n.
Proof.
  unfold count_cue_tracks. destruct (_ <$> _); eauto using len_nonneg.
  eexists. split; [done|lia].
Qed.

Lemma parse_cue_artist_album_total h cue : exists r, parse_cue_artist_album h cue = Ok r.
Proof. unfold parse_cue_artist_album. destruct (_ <$> _); eauto. Qed.

(** A sheet that cannot be read gives empty results. *)
Lemma read_failure_results h cue e :
  read_text_guessing h cue = Raise e ->
  parse_cue_files h cue = Ok []
  /\ parse_cue_artist_album h cue = Ok (None, None)
  /\ count_cue_tracks h cue = Ok 0.
Proof.
  intros Hr. unfold parse_cue_files, parse_cue_artist_album, count_cue_tracks.
  now rewrite Hr.
Qed.

(** The count of [count_audio_files] over a listing whose entries can all
    be examined: the entries that are files and whose suffix, in lower
    case, is in [AUDIO_EXTS].  Entries of sub-directories are not listed,
    and a directory that is absent or cannot be listed counts zero. *)
Lemma count_where_listing h ps (file : Path -> bool) :
  (forall q, q ∈ ps -> is_file h q = Ok (file q)) ->
  count_where h ps =
  Ok (len (filter (fun q => file q = true /\ str_lower (suffix h q) ∈ AUDIO_EXTS) ps)).
Proof.
  induction ps as [|q ps IH]; intros Hf; [done|].
  cbn [count_where]. unfold is_audio. rewrite (Hf q) by constructor.
  result_step. rewrite IH by (intros; apply Hf; now constructor).
  result_step. f_equal. rewrite filter_cons.
  destruct (file q); cbn [andb].
  - case_bool_decide; case_decide; try tauto; unfold len; cbn [length]; lia.
  - case_decide as Hd; [destruct Hd; done|done].
Qed.

Lemma count_audio_files_listing h directory ps (file : Path -> bool) :
  exists_ h directory = Ok true -> iterdir h directory = Ok ps ->
  (forall q, q ∈ ps -> is_file h q = Ok (file q)) ->
  count_audio_files h directory =
  Ok (len (filter (fun q => file q = true /\ str_lower (suffix h q) ∈ AUDIO_EXTS) ps)).
Proof.
  intros He Hi Hf. unfold count_audio_files. rewrite He, Hi.
  cbn [mbind result_bind negb]. now rewrite (count_where_listing h ps file).
Qed.

Lemma count_audio_files_absent h directory :
  exists_ h directory = Ok false -> count_audio_files h directory = Ok 0.
Proof. intros He. unfold count_audio_files. now rewrite He. Qed.

Lemma count_audio_files_unlistable h directory e :
  exists_ h directory = Ok true -> iterdir h directory = Raise e ->
  count_audio_files h directory = Ok 0.
Proof. intros He Hi. unfold count_audio_files. now rewrite He, Hi. Qed.

(** Two audio files, a picture and a sub-directory count two. *)
Example count_audio_files_full :
  count_audio_files (memory_host library) (path "/out/full") = Ok 2.
Proof. reflexivity. Qed.

(** C3: a sheet with at most one track marker is rejected with the reason
    "no tracks or only 1 track", whatever [out_dir], [force], the [FILE]
    lines of the sheet and the rest of the file system are. *)
Theorem should_process_few_tracks (h : host) (cue out_dir : Path) (force : bool) (n : Z) :
  count_cue_tracks h cue = Ok n -> n <= 1 ->
  should_process h cue out_dir force = Ok (false, py "no tracks or only 1 track").
Proof.
  intros Hc Hn. unfold should_process. rewrite Hc. result_step.
  now rewrite (proj2 (Z.leb_le n 1) Hn).
Qed.

Lemma should_process_few_tracks_witness :
  count_cue_tracks (memory_host library) (path "/in/two.cue") = Ok 1 /\
  should_process (memory_host library) (path "/in/two.cue") (path "/out/part") true
  = Ok (false, py "no tracks or only 1 track").
Proof.
  split; [reflexivity|].
  apply (should_process_few_tracks _ _ _ _ 1); [reflexivity|lia].
Defined.

(** C4, as stated, fails: a sheet with one track marker and two distinct
    files, and an empty sheet, are both rejected for their track count. *)
Lemma should_process_file_count_counterexample :
  (parse_cue_files (memory_host library) (path "/in/two.cue")
     = Ok [path "/in/a.wav"; path "/in/b.wav"]
   /\ (should_process (memory_host library) (path "/in/two.cue") (path "/out/part") false
       <> Ok (false, py "multi-file CUE (already split)")))
  /\ (parse_cue_files (memory_host library) (path "/in/empty.cue") = Ok []
      /\ (should_process (memory_host library) (path "/in/empty.cue") (path "/out/part") false
          <> Ok (false, py "no audio file referenced"))).
Proof. repeat split; try reflexivity; vm_compute; discriminate. Qed.

(** C4, amended: for a sheet with more than one track marker, two or more
    references after deduplication are rejected with the reason
    "multi-file CUE (already split)", and no reference is rejected with
    the reason "no audio file referenced". *)
Theorem should_process_file_count (h : host) (cue out_dir : Path) (force : bool)
    (n : Z) (refs : list Path) :
  count_cue_tracks h cue = Ok n -> 1 < n ->
  parse_cue_files h cue = Ok refs ->
  ((2 <= length refs)%nat ->
     should_process h cue out_dir force = Ok (false, py "multi-file CUE (already split)"))
  /\ (refs = [] ->
     should_process h cue out_dir force = Ok (false, py "no audio file referenced")).
Proof.
  intros Hc Hn Hf. unfold should_process. rewrite Hc. result_step.
  rewrite (proj2 (Z.leb_gt n 1) Hn), Hf. result_step. split.
  - intros Hl. unfold len.
    rewrite (proj2 (Z.eqb_neq _ 0)) by lia.
    replace (Z.of_nat (length refs) >? 1) with true; [done|].
    symmetry. rewrite Z.gtb_ltb. apply Z.ltb_lt. lia.
  - now intros ->.
Qed.

Lemma should_process_file_count_witness :
  should_process (memory_host library) (path "/in/split.cue") (path "/out/part") false
    = Ok (false, py "multi-file CUE (already split)")
  /\ should_process (memory_host library) (path "/in/nofile.cue") (path "/out/part") false
    = Ok (false, py "no audio file referenced").
Proof.
  split.
  - refine (proj1 (should_process_file_count (memory_host library)
      (path "/in/split.cue") (path "/out/part") false 2
      [path "/in/a.wav"; path "/in/b.wav"] _ _ _) _);
      [reflexivity | lia | reflexivity | simpl; lia].
  - refine (proj2 (should_process_file_count (memory_host library)
      (path "/in/nofile.cue") (path "/out/part") false 2 [] _ _ _) _);
      [reflexivity | lia | reflexivity | reflexivity].
Defined.



(** ** Properties of [parse_cue_files] *)

Lemma Path_eq (r r' : Path) : path_str r = path_str r' -> r = r'.
Proof. destruct r, r'. simpl. congruence. Qed.

Lemma keep_first_snoc refs : forall earlier r,
  keep_first earlier (refs ++ [r]) =
  keep_first earlier refs
  ++ if bool_decide (path_str r ∈ earlier ++ (path_str <$> refs)) then [] else [r].
Proof.
  induction refs as [|r0 refs IH]; intros earlier r; cbn [keep_first app fmap list_fmap].
  - now rewrite !app_nil_r.
  - rewrite IH, <- !app_assoc. done.
Qed.

Lemma keep_first_fresh refs : forall earlier,
  NoDup (path_str <$> keep_first earlier refs)
  /\ forall k, k ∈ path_str <$> keep_first earlier refs -> k ∉ earlier.
Proof.
  induction refs as [|r refs IH]; intros earlier; cbn [keep_first].
  - split; [constructor|]. intros k Hk. by apply elem_of_nil in Hk.
  - destruct (IH (earlier ++ [path_str r])) as [Hnd Hfr].
    assert (Hr : path_str r ∉ path_str <$> keep_first (earlier ++ [path_str r]) refs).
    { intros Hin. apply Hfr in Hin. apply Hin, elem_of_app. right. constructor. }
    assert (Hrest : forall k, k ∈ path_str <$> keep_first (earlier ++ [path_str r]) refs
                              -> k ∉ earlier).
    { intros k Hk Hin. apply (Hfr k Hk), elem_of_app. now left. }
    case_bool_decide as Hseen; cbn [app fmap list_fmap]; [done|].
    split; [now apply NoDup_cons|].
    intros k Hk. apply elem_of_cons in Hk as [->|Hk]; auto.
Qed.

Lemma keep_first_sublist refs : forall earlier, sublist (keep_first earlier refs) refs.
Proof.
  induction refs as [|r refs IH]; intros earlier; cbn [keep_first]; [constructor|].
  case_bool_decide; cbn [app]; constructor; apply IH.
Qed.

Lemma keep_first_covers refs : forall earlier r,
  r ∈ refs -> path_str r ∉ earlier -> r ∈ keep_first earlier refs.
Proof.
  induction refs as [|r0 refs IH]; intros earlier r Hin Hfr; cbn [keep_first].
  - by apply elem_of_nil in Hin.
  - destruct (decide (path_str r = path_str r0)) as [Heq|Hne].
    + apply Path_eq in Heq as <-. rewrite bool_decide_eq_false_2 by done.
      apply elem_of_app. left. constructor.
    + apply elem_of_cons in Hin as [->|Hin]; [done|].
      apply elem_of_app. right. apply IH; [done|].
      intros Hk. apply elem_of_app in Hk as [Hk|Hk]; [done|].
      apply list_elem_of_singleton in Hk. done.
Qed.

Lemma files_loop_raise h cue e lines :
  foldl (files_step h cue) (Raise e) lines = Raise e.
Proof. induction lines as [|line rest IH]; [done|]. apply IH. Qed.

(** The loop of [parse_cue_files], [done] being the references of the
    lines read so far and [seen] the set of their strings. *)
Lemma files_loop h cue lines : forall (done : list Path) (seen : gset (list Z)),
  (forall k, k ∈ seen <-> k ∈ path_str <$> done) ->
  fst <$> foldl (files_step h cue) (Ok (keep_first [] done, seen)) lines
  = (fun rs => keep_first [] (done ++ rs))
      <$> mapM (resolve_ref h cue) (file_names lines).
Proof.
  induction lines as [|line rest IH]; intros done_ seen Hseen.
  - cbn. now rewrite app_nil_r.
  - cbn [foldl]. unfold files_step at 2, file_names. cbn [mbind result_bind omap list_omap].
    fold (file_names rest).
    destruct (re_match FILE_RE line) as [gs|]; cbn [fmap option_fmap option_map];
      [|now apply IH].
    cbn [mapM mbind result_bind].
    destruct (resolve_ref h cue (strip (group gs 1))) as [r|e];
      result_step; [|now rewrite files_loop_raise].
    assert (Hstep : exists seen',
      (if bool_decide (path_str r ∉ seen)
       then Ok (keep_first [] done_ ++ [r], {[path_str r]} ∪ seen)
       else Ok (keep_first [] done_, seen))
      = Ok (keep_first [] (done_ ++ [r]), seen')
      /\ forall k, k ∈ seen' <-> k ∈ path_str <$> done_ ++ [r]).
    { rewrite keep_first_snoc. cbn [app].
      destruct (decide (path_str r ∈ seen)) as [Hin|Hnin].
      - exists seen. rewrite bool_decide_eq_false_2 by auto.
        rewrite bool_decide_eq_true_2 by now apply Hseen.
        rewrite app_nil_r. split; [done|].
        intros k. rewrite fmap_app, elem_of_app, <- Hseen.
        cbn [fmap list_fmap]. rewrite list_elem_of_singleton.
        split; [auto|]. intros [?| ->]; auto.
      - exists ({[path_str r]} ∪ seen). rewrite bool_decide_eq_true_2 by done.
        rewrite bool_decide_eq_false_2 by (now rewrite <- Hseen).
        split; [done|].
        intros k. rewrite fmap_app, elem_of_app, <- Hseen.
        cbn [fmap list_fmap]. rewrite list_elem_of_singleton.
        rewrite elem_of_union, elem_of_singleton. tauto. }
    destruct Hstep as (seen' & -> & Hseen').
    rewrite (IH _ _ Hseen').
    destruct (mapM (resolve_ref h cue) (file_names rest)) as [rs|e];
      cbn [fmap result_fmap mbind result_bind mret result_ret]; [|done].
    now rewrite <- app_assoc.
Qed.

(** [parse_cue_files] as a function of the lines of the sheet. *)
Lemma parse_cue_files_keep_first (h : host) (cue : Path) :
  parse_cue_files h cue =
    match read_text_guessing h cue with
    | Raise _ => Ok []
    | Ok text =>
        keep_first [] <$> mapM (resolve_ref h cue) (file_names (splitlines text))
    end.
Proof.
  unfold parse_cue_files. destruct (read_text_guessing h cue) as [text|e]; [|done].
  cbn [fmap result_fmap].
  apply (files_loop h cue (splitlines text) [] ∅). intros k.
  cbn [fmap list_fmap]. rewrite elem_of_nil. apply elem_of_empty.
Qed.

Lemma mapM_raise {A B} (f : A -> result B) (l : list A) e :
  mapM f l = Raise e -> exists a, a ∈ l /\ f a = Raise e.
Proof.
  induction l as [|a l IH]; cbn [mapM mbind result_bind]; [done|].
  destruct (f a) as [b|e'] eqn:Hf; result_step.
  - destruct (mapM f l) as [bs|e'']; result_step; [done|].
    intros [= ->]. destruct (IH eq_refl) as (a' & Hin & Ha').
    exists a'. split; [now apply list_elem_of_further|done].
  - intros [= ->]. exists a. split; [apply list_elem_of_here|done].
Qed.

(** C8, as stated, fails: the names are not all deduplicated by their
    canonical resolved path.  A name that is absolute is never resolved,
    and the key of the deduplication is the string of the path as the
    loop obtained it.  Here one sheet names the file [/in/a.wav] twice,
    first by an absolute name with a [..] in it and then by a relative
    name: both lines denote the same resolved path, yet two entries are
    returned, and [should_process] takes the sheet for a multi-file one. *)
Lemma parse_cue_files_same_file :
  read_text_guessing (resolving_host drive) (path "/in/dup.cue") = Ok same_file_sheet
  /\ file_names (splitlines same_file_sheet) = [py "/in/../in/a.wav"; py "a.wav"]
  /\ resolve (resolving_host drive) (path "/in/../in/a.wav") = Ok (path "/in/a.wav")
  /\ resolve (resolving_host drive) (path "/in/a.wav") = Ok (path "/in/a.wav")
  /\ parse_cue_files (resolving_host drive) (path "/in/dup.cue")
     = Ok [path "/in/../in/a.wav"; path "/in/a.wav"]
  /\ should_process (resolving_host drive) (path "/in/dup.cue") (path "/out") true
     = Ok (false, py "multi-file CUE (already split)").
Proof. repeat split; vm_compute; reflexivity. Qed.

(** C8, amended: [parse_cue_files] returns the empty list when the sheet
    cannot be read.  Otherwise it takes the names of the [FILE] lines in
    order and turns each into a path: a name that is absolute is taken as
    written and is not resolved, a name that is not absolute is resolved
    against the directory of the sheet.  It keeps a path when no earlier
    line gave a path with the same string, so the key of the
    deduplication is the string of the path so obtained: the canonical
    resolved path for a name that is not absolute, the name as written
    for an absolute one.  The paths returned have pairwise different
    strings, stand in the order of the sheet, and every path referenced is
    among them; a path is appended exactly when its string is new.  No
    list is returned when resolving a name raises. *)
Theorem parse_cue_files_first_seen (h : host) (cue : Path) :
  parse_cue_files h cue =
    match read_text_guessing h cue with
    | Raise _ => Ok []
    | Ok text =>
        keep_first [] <$> mapM (resolve_ref h cue) (file_names (splitlines text))
    end
  /\ (forall fname : str,
       resolve_ref h cue fname =
         if is_absolute h (path_of h fname) then Ok (path_of h fname)
         else resolve h (joinpath h (parent h cue) (path_of h fname)))
  /\ forall refs : list Path,
       NoDup (path_str <$> keep_first [] refs)
       /\ sublist (keep_first [] refs) refs
       /\ (forall r, r ∈ refs -> r ∈ keep_first [] refs)
       /\ (forall r, keep_first [] (refs ++ [r]) =
             keep_first [] refs
             ++ if bool_decide (path_str r ∈ path_str <$> refs) then [] else [r]).
Proof.
  split; [apply parse_cue_files_keep_first|].
  split.
  { intros fname. unfold resolve_ref.
    now destruct (is_absolute h (path_of h fname)). }
  intros refs. split; [apply keep_first_fresh|].
  split; [apply keep_first_sublist|]. split.
  - intros r Hr. apply keep_first_covers; [done|]. apply not_elem_of_nil.
  - intros r. apply (keep_first_snoc refs [] r).
Qed.

Lemma parse_cue_files_first_seen_witness :
  parse_cue_files (memory_host library) (path "/in/split.cue")
    = Ok [path "/in/a.wav"; path "/in/b.wav"]
  /\ resolve_ref (resolving_host drive) (path "/in/dup.cue") (py "/in/../in/a.wav")
     = Ok (path "/in/../in/a.wav")
  /\ resolve_ref (resolving_host drive) (path "/in/dup.cue") (py "sub/../a.wav")
     = Ok (path "/in/a.wav")
  /\ keep_first [] [path "/in/a.wav"; path "/in/b.wav"; path "/in/a.wav"]
     = [path "/in/a.wav"; path "/in/b.wav"]
  /\ path "/in/b.wav" ∈ keep_first [] [path "/in/a.wav"; path "/in/b.wav"].
Proof.
  destruct (parse_cue_files_first_seen (memory_host library) (path "/in/split.cue"))
    as (Hrun & _ & Hkeep).
  destruct (parse_cue_files_first_seen (resolving_host drive) (path "/in/dup.cue"))
    as (_ & Href & _).
  split; [rewrite Hrun; reflexivity|].
  split; [rewrite Href; reflexivity|].
  split; [rewrite Href; reflexivity|]. split.
  - apply (proj2 (proj2 (proj2 (Hkeep [path "/in/a.wav"; path "/in/b.wav"])))).
  - apply (proj1 (proj2 (proj2 (Hkeep [path "/in/a.wav"; path "/in/b.wav"])))).
    apply list_elem_of_further, list_elem_of_here.
Defined.

(** ** Exceptions of the parsers *)

(** C9, as stated, fails: the path of a [FILE] line is resolved outside
    the [try] block, so an exception of [Path.resolve] leaves
    [parse_cue_files], and [should_process] with it.  Here the sheet is
    readable and names a symbolic link to itself. *)
Lemma parse_cue_files_propagates :
  read_text_guessing (memory_host library) (path "/in/loop.cue") = Ok loop_sheet
  /\ parse_cue_files (memory_host library) (path "/in/loop.cue") = Raise RuntimeError
  /\ should_process (memory_host library) (path "/in/loop.cue") (path "/out/part") false
     = Raise RuntimeError.
Proof. repeat split; reflexivity. Qed.

(** C9, amended: when reading the sheet raises, [parse_cue_files] returns
    the empty list, [parse_cue_artist_album] returns [(None, None)] and
    [count_cue_tracks] returns 0; [parse_cue_artist_album] and
    [count_cue_tracks] never raise; and an exception that leaves
    [parse_cue_files] was raised by [Path.resolve] on the path of a [FILE]
    line whose name is not absolute. *)
Theorem parsers_exceptions (h : host) (cue : Path) :
  (forall e, read_text_guessing h cue = Raise e ->
     parse_cue_files h cue = Ok []
     /\ parse_cue_artist_album h cue = Ok (None, None)
     /\ count_cue_tracks h cue = Ok 0)
  /\ (exists r, parse_cue_artist_album h cue = Ok r)
  /\ (exists n, count_cue_tracks h cue = Ok n)
  /\ (forall e, parse_cue_files h cue = Raise e ->
      exists text fname,
        read_text_guessing h cue = Ok text
        /\ fname ∈ file_names (splitlines text)
        /\ is_absolute h (path_of h fname) = false
        /\ resolve h (joinpath h (parent h cue) (path_of h fname)) = Raise e).
Proof.
  split; [apply read_failure_results|].
  split; [apply parse_cue_artist_album_total|].
  split; [destruct (count_cue_tracks_total h cue) as (n & Hn & _); eauto|].
  intros e. rewrite parse_cue_files_keep_first.
  destruct (read_text_guessing h cue) as [text|e']; [|done].
  destruct (mapM _ _) as [refs|e''] eqn:Hm; cbn [fmap result_fmap]; [done|].
  intros [= ->]. apply mapM_raise in Hm as (fname & Hin & Hr).
  exists text, fname. unfold resolve_ref in Hr.
  destruct (is_absolute h (path_of h fname)); [done|]. done.
Qed.

Lemma parsers_exceptions_witness :
  (parse_cue_files (memory_host library) (path "/in/none.cue") = Ok []
   /\ parse_cue_artist_album (memory_host library) (path "/in/none.cue") = Ok (None, None)
   /\ count_cue_tracks (memory_host library) (path "/in/none.cue") = Ok 0)
  /\ exists text fname,
       read_text_guessing (memory_host library) (path "/in/loop.cue") = Ok text
       /\ fname ∈ file_names (splitlines text)
       /\ is_absolute (memory_host library) (path_of (memory_host library) fname) = false
       /\ resolve (memory_host library)
            (joinpath (memory_host library)
               (parent (memory_host library) (path "/in/loop.cue"))
               (path_of (memory_host library) fname))
          = Raise RuntimeError.
Proof.
  split.
  - apply (proj1 (parsers_exceptions (memory_host library) (path "/in/none.cue"))
             OSError). reflexivity.
  - apply (proj2 (proj2 (proj2
             (parsers_exceptions (memory_host library) (path "/in/loop.cue"))))
             RuntimeError). reflexivity.
Defined.

(** * Further properties *)

(** ** The sanitiser *)

Lemma not_special (value : list Z) :
  (exists ch, ch ∈ value /\ ch <> 40 /\ ch <> 32 /\ ch <> 41) \/ 40 ∉ value ->
  value <> py "( )".
Proof.
  intros [(ch & Hin & H1 & H2 & H3)|Hno] ->.
  - change (py "( )") with [40; 32; 41] in Hin.
    apply list_elem_of_In in Hin. simpl in Hin. lia.
  - apply Hno. change (py "( )") with [40; 32; 41]. apply list_elem_of_here.
Qed.

Lemma safe_not_special (value : list Z) : Forall safe value -> value <> py "( )".
Proof.
  intros Hs. apply not_special. right. intros Hin.
  rewrite Forall_forall in Hs. apply Hs in Hin. unfold safe in Hin. lia.
Qed.

(** X1: [sanitize_name] is idempotent: sanitising its output gives the
    output again. *)
Theorem sanitize_name_idempotent (value : list Z) :
  exists out : list Z, sanitize_name value = Ok out /\ sanitize_name out = Ok out.
Proof.
  eexists. split; [apply sanitize_name_render|].
  assert (Hs : Forall safe
            (if bool_decide (value = py "( )") then py "Untitled" else render value)).
  { destruct (bool_decide _); [now apply safe_check|apply render_safe]. }
  rewrite sanitize_name_render.
  rewrite bool_decide_eq_false_2 by now apply safe_not_special.
  now rewrite render_plain.
Qed.

Lemma expansion_tab : expansion 9 = ([32], false).
Proof. reflexivity. Qed.

(** X2: on a string of ASCII letters, digits, spaces and tabs,
    [sanitize_name] returns the string with each tab turned into a
    space. *)
Theorem sanitize_name_tabs (value : list Z) :
  Forall (fun ch => safe ch \/ ch = 9) value ->
  sanitize_name value = Ok (untab <$> value).
Proof.
  intros Hv. rewrite sanitize_name_render.
  rewrite bool_decide_eq_false_2.
  2:{ apply not_special. right. intros Hin. rewrite Forall_forall in Hv.
      apply Hv in Hin. unfold safe in Hin. lia. }
  f_equal. induction Hv as [|ch r Hch Hr IH]; [done|].
  rewrite render_cons, IH. cbn [fmap list_fmap].
  destruct Hch as [Hs| ->].
  - rewrite expansion_plain by done.
    replace (untab ch) with ch; [done|].
    unfold untab. rewrite bool_decide_eq_false_2; [done|]. unfold safe in Hs. lia.
  - now rewrite expansion_tab.
Qed.

Lemma sanitize_name_tabs_witness :
  sanitize_name (py "Side" ++ [9] ++ py "A") = Ok (py "Side A").
Proof.
  apply (sanitize_name_tabs (py "Side" ++ [9] ++ py "A")).
  change (py "Side" ++ [9] ++ py "A") with [83; 105; 100; 101; 9; 65].
  repeat first [apply Forall_nil_2 | apply Forall_cons_2; [unfold safe; lia|]].
Defined.

(** A character outside the alphabet of the first loop appends nothing. *)
Lemma expansion_outside ch : in_alphabet ch = false -> expansion ch = ([], false).
Proof.
  unfold in_alphabet, expansion, emit_step. intros H.
  apply orb_false_iff in H as [H H3]. apply orb_false_iff in H as [H1 H2].
  now rewrite H1, H2, H3.
Qed.

Lemma render_filter_alphabet value :
  render (filter (fun ch => in_alphabet ch = true) value) = render value.
Proof.
  induction value as [|ch r IH]; [done|].
  rewrite filter_cons. destruct (in_alphabet ch) eqn:Ha.
  - rewrite decide_True by done. now rewrite !render_cons, IH.
  - rewrite decide_False by done. rewrite render_cons, IH.
    now rewrite expansion_outside.
Qed.

(** X3: characters that are neither ASCII letters, digits, spaces or tabs
    nor in the range of the table are ignored: removing them from a name
    other than [( )] does not change what [sanitize_name] returns.  A
    name made only of such characters sanitises to the empty string. *)
Theorem sanitize_name_ignores (value : list Z) :
  value <> py "( )" ->
  sanitize_name (filter (fun ch => in_alphabet ch = true) value) = sanitize_name value
  /\ (Forall (fun ch => in_alphabet ch = false) value -> sanitize_name value = Ok []).
Proof.
  intros Hv.
  assert (Heq : sanitize_name value = Ok (render value)).
  { rewrite sanitize_name_render. now rewrite bool_decide_eq_false_2. }
  split.
  - rewrite Heq, sanitize_name_render, render_filter_alphabet.
    rewrite bool_decide_eq_false_2; [done|].
    apply not_special. right. intros Hin.
    apply list_elem_of_filter in Hin as [Hin _]. discriminate Hin.
  - intros Hall. rewrite Heq, <- render_filter_alphabet. f_equal.
    replace (filter (fun ch => in_alphabet ch = true) value) with (@nil Z); [done|].
    symmetry. clear Hv Heq. induction Hall as [|ch r Hch Hr IH]; [done|].
    rewrite filter_cons, decide_False by congruence. done.
Qed.

Lemma sanitize_name_ignores_witness :
  sanitize_name (filter (fun ch => in_alphabet ch = true) (py "AC/DC!"))
    = sanitize_name (py "AC/DC!")
  /\ sanitize_name [0x41C; 0x443; 0x437; 0x44B; 0x43A; 0x430] = Ok [].
Proof.
  split.
  - apply (sanitize_name_ignores (py "AC/DC!")). discriminate.
  - apply (sanitize_name_ignores [0x41C; 0x443; 0x437; 0x44B; 0x43A; 0x430]);
      [discriminate|]. repeat constructor.
Defined.

(** Every entry of the table has at most two letters. *)
Lemma expansion_short ch : (length (expansion ch).1 <= 2)%nat.
Proof.
  unfold expansion, emit_step.
  destruct (is_plain ch); [simpl; lia|].
  destruct (bool_decide ([ch] = [9])); [simpl; lia|].
  destruct (_ && _); [|simpl; lia].
  destruct (truthy _) as [mapped|] eqn:Ht; [|simpl; lia].
  apply truthy_Some in Ht as [Ht _].
  assert (Hl : (length mapped <= 2)%nat).
  { destruct (LATIN_MAP !! _) as [o|] eqn:Hl; simpl in Ht; [|done]. subst o.
    assert (H : forallb (fun o => match o with
                                 | Some w => (length w <=? 2)%nat
                                 | None => true
                                 end) LATIN_MAP = true) by reflexivity.
    rewrite forallb_forall in H.
    apply list_elem_of_lookup_2, list_elem_of_In, H in Hl.
    now apply Nat.leb_le in Hl. }
  destruct (second_is_upper mapped); simpl; lia.
Qed.

Lemma raw_length value : (length (raw value) <= 2 * length value)%nat.
Proof.
  induction value as [|ch r IH]; [simpl; lia|].
  rewrite raw_cons, length_app. pose proof (expansion_short ch). simpl. lia.
Qed.

(** X4: but for the name [( )], the output of [sanitize_name] has at most
    twice the length of its input. *)
Theorem sanitize_name_length (value : list Z) :
  value <> py "( )" ->
  exists out : list Z,
    sanitize_name value = Ok out /\ (length out <= 2 * length value)%nat.
Proof.
  intros Hv. exists (render value). rewrite sanitize_name_render.
  rewrite bool_decide_eq_false_2 by done. split; [done|].
  rewrite render_length. apply raw_length.
Qed.

Lemma sanitize_name_length_witness :
  exists out : list Z,
    sanitize_name [0xC6; 0x152] = Ok out /\ (length out <= 2 * 2)%nat.
Proof. apply (sanitize_name_length [0xC6; 0x152]). discriminate. Defined.

Lemma lower_lower ch : lower (lower ch) = lower ch.
Proof.
  unfold lower. destruct (isupper ch) eqn:Hu; [|now rewrite Hu].
  destruct (isupper (ch + 32)) eqn:Hu'; [|done].
  apply isupper_spec in Hu, Hu'. lia.
Qed.

Lemma settle_lower e rest : lower <$> settle e rest = lower <$> e.1.
Proof.
  destruct e as [w [|]]; [|done]. unfold settle. cbn [fst snd].
  destruct rest as [|nxt ?]; [done|]. destruct (isupper nxt); [done|].
  apply list_eq. intros i. rewrite !list_lookup_fmap.
  destruct (decide (i = (length w - 1)%nat)) as [->|Hne].
  - rewrite list_lookup_alter_eq. destruct (w !! _); [|done].
    cbn. now rewrite lower_lower.
  - now rewrite list_lookup_alter_ne.
Qed.

Lemma render_lower value : lower <$> render value = lower <$> raw value.
Proof.
  induction value as [|ch r IH]; [done|].
  now rewrite render_cons, raw_cons, !fmap_app, settle_lower, IH.
Qed.

(** X5: the second loop of [sanitize_name] changes nothing but the case of
    letters: but for the name [( )], the output has the length of the
    characters collected by the first loop and equals them once both are
    put in lower case. *)
Theorem sanitize_name_case_only (value : list Z) :
  value <> py "( )" ->
  exists out : list Z,
    sanitize_name value = Ok out
    /\ length out = length (emit value).1
    /\ lower <$> out = lower <$> (emit value).1.
Proof.
  intros Hv. exists (render value). rewrite sanitize_name_render.
  rewrite bool_decide_eq_false_2 by done. rewrite emit_raw. cbn [fst].
  split; [done|]. split; [apply render_length|apply render_lower].
Qed.

Lemma sanitize_name_case_only_witness :
  exists out : list Z,
    sanitize_name (0xC6 :: py "on") = Ok out
    /\ length out = length (emit (0xC6 :: py "on")).1
    /\ lower <$> out = lower <$> (emit (0xC6 :: py "on")).1.
Proof. apply (sanitize_name_case_only (0xC6 :: py "on")). discriminate. Defined.

(** ** The patterns *)

(** The greedy repetition takes a run of the class and hands the rest to
    the continuation. *)
Lemma repeat_cls_sound P k : forall s w gs,
  repeat_cls P k s = Some (w, gs) ->
  Forall (fun ch => P ch = true) w /\ exists s', s = w ++ s' /\ k s' = Some gs.
Proof.
  induction s as [|ch r IH]; intros w gs Hr; cbn [repeat_cls] in Hr.
  - destruct (k []) as [gs'|] eqn:Hk; [|done]. injection Hr as <- <-.
    split; [constructor|]. by exists [].
  - assert (Hfall : (fun gs => ([], gs)) <$> k (ch :: r) = Some (w, gs) ->
        Forall (fun ch => P ch = true) w
        /\ exists s', ch :: r = w ++ s' /\ k s' = Some gs).
    { intros H. destruct (k (ch :: r)) as [gs'|] eqn:Hk; [|done].
      injection H as <- <-. split; [constructor|]. by exists (ch :: r). }
    destruct (P ch) eqn:HP; [|auto].
    destruct (repeat_cls P k r) as [[w' gs']|] eqn:Hrec; [|auto].
    injection Hr as <- <-. destruct (IH _ _ eq_refl) as (Hw & s' & -> & Hk).
    split; [by constructor|]. by exists s'.
Qed.

(** It finds a split whenever there is one. *)
Lemma repeat_cls_complete P k : forall w s,
  Forall (fun ch => P ch = true) w -> is_Some (k s) ->
  is_Some (repeat_cls P k (w ++ s)).
Proof.
  assert (Hnil : forall s, is_Some (k s) -> is_Some (repeat_cls P k s)).
  { intros [|ch r] Hk; cbn [repeat_cls]; [by apply fmap_is_Some|].
    destruct (P ch); [|by apply fmap_is_Some].
    destruct (repeat_cls P k r) as [[w gs]|]; [done|by apply fmap_is_Some]. }
  induction w as [|ch w IH]; intros s Hw Hk; [by apply Hnil|].
  apply Forall_cons in Hw as [Hch Hw]. cbn [app repeat_cls]. rewrite Hch.
  destruct (IH s Hw Hk) as [[w' gs] ->]. done.
Qed.

(** The matcher accepts exactly what the pattern matches. *)
Lemma run_sound p : forall s gs, run p s = Some gs -> matches p s gs.
Proof.
  induction p as [|it p IH]; intros s gs Hr; cbn [run] in Hr.
  - destruct (at_end s) eqn:He; [|done]. injection Hr as <-. by constructor.
  - destruct (rep it) eqn:Hq.
    + destruct s as [|ch r]; [done|]. destruct (cls it ch) eqn:Hc; [|done].
      destruct (run p r) as [gs'|] eqn:Hp; [|done]. injection Hr as <-.
      apply (matches_item it p [ch] r gs'); [by repeat constructor| |by apply IH].
      by rewrite Hq.
    + destruct (repeat_cls (cls it) (run p) s) as [[w gs']|] eqn:Hp; [|done].
      injection Hr as <-. apply repeat_cls_sound in Hp as (Hw & s' & -> & Hk).
      apply matches_item; [done|by rewrite Hq|by apply IH].
    + destruct s as [|ch r]; [done|]. destruct (cls it ch) eqn:Hc; [|done].
      destruct (repeat_cls (cls it) (run p) r) as [[w gs']|] eqn:Hp; [|done].
      injection Hr as <-. apply repeat_cls_sound in Hp as (Hw & s' & -> & Hk).
      apply (matches_item it p (ch :: w) s' gs'); [by constructor| |by apply IH].
      by rewrite Hq.
Qed.

Lemma run_complete p s gs : matches p s gs -> is_Some (run p s).
Proof.
  induction 1 as [s He|it p w s gs Hw Hf Hm IH]; cbn [run].
  - by rewrite He.
  - destruct (rep it) eqn:Hq; cbn [fits] in Hf.
    + destruct w as [|ch [|? ?]]; try done. apply Forall_cons in Hw as [Hch _].
      cbn [app]. rewrite Hch. by apply fmap_is_Some.
    + apply fmap_is_Some. by apply repeat_cls_complete.
    + destruct w as [|ch w]; [done|]. apply Forall_cons in Hw as [Hch Hw].
      cbn [app]. rewrite Hch. apply fmap_is_Some. by apply repeat_cls_complete.
Qed.

(** Taking a pattern apart: one item that is no group. *)
Lemma matches_plain_inv P q p s gs :
  matches (Item P q false :: p) s gs ->
  exists w s', s = w ++ s' /\ Forall (fun ch => P ch = true) w /\ fits q w
               /\ matches p s' gs.
Proof. inversion 1; subst. eauto 10. Qed.

Lemma matches_group_inv P q p s gs :
  matches (Item P q true :: p) s gs ->
  exists w s' gs', s = w ++ s' /\ gs = w :: gs'
                   /\ Forall (fun ch => P ch = true) w /\ fits q w
                   /\ matches p s' gs'.
Proof. inversion 1; subst. eauto 10. Qed.

Lemma matches_end_inv s gs : matches [] s gs -> gs = [] /\ blank s.
Proof.
  inversion 1 as [s' He|]; subst. split; [done|].
  unfold at_end in He. apply orb_true_iff in He as [He|He];
    apply bool_decide_eq_true in He; subst; [constructor|].
  by repeat constructor.
Qed.

(** A keyword of a pattern takes a word that spells it. *)
Lemma matches_letters_inv cs p : forall s gs,
  matches ((lit <$> cs) ++ p) s gs ->
  exists k s', s = k ++ s' /\ casefold <$> k = casefold <$> cs /\ matches p s' gs.
Proof.
  induction cs as [|c cs IH]; intros s gs Hm; cbn [fmap list_fmap app] in Hm.
  - by exists [], s.
  - apply matches_plain_inv in Hm as (w & s1 & -> & Hw & Hf & Hm).
    cbn [fits] in Hf. destruct w as [|ch [|? ?]]; try done.
    apply Forall_cons in Hw as [Hch _]. apply bool_decide_eq_true in Hch.
    destruct (IH _ _ Hm) as (k & s' & -> & Hk & Hm').
    exists (ch :: k), s'. cbn [fmap list_fmap]. by rewrite Hch, Hk.
Qed.

Lemma matches_letters cs p : forall k s gs,
  casefold <$> k = casefold <$> cs -> matches p s gs ->
  matches ((lit <$> cs) ++ p) (k ++ s) gs.
Proof.
  induction cs as [|c cs IH]; intros k s gs Hk Hm.
  - by destruct k.
  - destruct k as [|ch k]; [done|]. injection Hk as Hch Hk.
    apply (matches_item (lit c) _ [ch] (k ++ s) gs);
      [|done|by apply IH].
    apply Forall_singleton. by apply bool_decide_eq_true.
Qed.

Lemma matches_blank q p w s gs :
  blank w -> fits q w -> matches p s gs ->
  matches (Item is_space q false :: p) (w ++ s) gs.
Proof. intros Hw Hf Hm. by apply (matches_item (Item is_space q false)). Qed.

Lemma blank_app w w' : blank w -> blank w' -> blank (w ++ w').
Proof. intros. by apply Forall_app. Qed.

(** A character that folds to a letter is no whitespace, so a spelled
    keyword begins with none. *)
Lemma letter_not_space ch c :
  casefold ch = c -> 97 <= c <= 122 -> is_space ch = false.
Proof.
  intros Hc Hl. destruct (is_space ch) eqn:Hs; [|done].
  pose proof (is_space_casefold _ Hs) as Hf. apply is_space_spec in Hs. lia.
Qed.

(** A string has one split into leading whitespace and a rest that does
    not begin with whitespace. *)
Lemma blank_prefix_unique w w' ch ch' r r' :
  blank w -> blank w' -> is_space ch = false -> is_space ch' = false ->
  w ++ ch :: r = w' ++ ch' :: r' -> w = w' /\ ch :: r = ch' :: r'.
Proof.
  intros Hw. revert w'. induction Hw as [|c w Hc Hw IH]; intros w' Hw' Hch Hch' He.
  - destruct Hw' as [|c' w' Hc' Hw']; [done|].
    injection He as -> _. congruence.
  - destruct Hw' as [|c' w' Hc' Hw'].
    + injection He as -> _. congruence.
    + injection He as -> He. destruct (IH _ Hw' Hch Hch' He) as [-> ?]. done.
Qed.

Lemma casefold_dquote ch : casefold ch = casefold dquote -> ch = dquote.
Proof.
  change (casefold dquote) with 34. unfold dquote, casefold.
  destruct (isupper ch) eqn:Hu; [apply isupper_spec in Hu; lia|].
  repeat case_bool_decide; try done; lia.
Qed.

Lemma blank_no_dquote w : blank w -> dquote ∉ w.
Proof.
  intros Hw Hin. unfold blank in Hw. rewrite Forall_forall in Hw.
  apply Hw in Hin. discriminate Hin.
Qed.

Lemma spells_no_dquote k keyword :
  dquote ∉ casefold <$> py keyword -> spells k keyword -> dquote ∉ k.
Proof.
  intros Hk Hs Hin. apply Hk. rewrite <- Hs.
  change dquote with (casefold dquote). by apply list_elem_of_fmap_2.
Qed.

(** The first occurrence of a character splits a string in one way. *)
Lemma first_occurrence_unique (q : Z) l1 : forall l2 r1 r2,
  q ∉ l1 -> q ∉ l2 -> l1 ++ q :: r1 = l2 ++ q :: r2 -> l1 = l2 /\ r1 = r2.
Proof.
  induction l1 as [|c l1 IH]; intros l2 r1 r2 H1 H2 He.
  - destruct l2 as [|c' l2]; [by injection He|].
    injection He as <- _. exfalso. apply H2, list_elem_of_here.
  - destruct l2 as [|c' l2].
    + injection He as -> _. exfalso. apply H1, list_elem_of_here.
    + injection He as -> He. apply not_elem_of_cons in H1 as [_ H1].
      apply not_elem_of_cons in H2 as [_ H2].
      destruct (IH _ _ _ H1 H2 He) as [-> ->]. done.
Qed.

(** A run without whitespace followed by whitespace is one run. *)
Lemma solid_prefix_unique t : forall t' w w',
  Forall (fun ch => is_space ch = false) t -> Forall (fun ch => is_space ch = false) t' ->
  blank w -> blank w' -> t ++ w = t' ++ w' -> t = t'.
Proof.
  induction t as [|c t IH]; intros t' w w' Ht Ht' Hw Hw' He.
  - destruct t' as [|c' t']; [done|]. cbn [app] in He. subst w.
    apply Forall_cons in Hw as [Hc _]. apply Forall_cons in Ht' as [Hc' _]. congruence.
  - apply Forall_cons in Ht as [Hc Ht]. destruct t' as [|c' t'].
    + cbn [app] in He. subst w'. apply Forall_cons in Hw' as [Hc' _]. congruence.
    + injection He as -> He. apply Forall_cons in Ht' as [_ Ht'].
      by rewrite (IH _ _ _ Ht Ht' Hw Hw' He).
Qed.

(** X6: the lines that [count_cue_tracks] counts and at which
    [parse_cue_artist_album] stops.  A line is a track marker exactly when
    it reads: optional whitespace, the word TRACK in any case, whitespace,
    decimal digits, whitespace, the word AUDIO in any case, optional
    whitespace. *)
Theorem track_line (line : list Z) :
  is_track line = true <->
  exists ws1 k ws2 ds ws3 a ws4,
    line = ws1 ++ k ++ ws2 ++ ds ++ ws3 ++ a ++ ws4
    /\ blank ws1 /\ spells k "TRACK"
    /\ blank ws2 /\ ws2 <> []
    /\ Forall (fun ch => is_decimal ch = true) ds /\ ds <> []
    /\ blank ws3 /\ ws3 <> []
    /\ spells a "AUDIO" /\ blank ws4.
Proof.
  unfold is_track. rewrite bool_decide_eq_true. unfold re_match.
  change TRACK_RE with
    (Item is_space Star false :: (lit <$> py "TRACK")
     ++ Item is_space Plus false :: Item is_decimal Plus false
        :: Item is_space Plus false :: (lit <$> py "AUDIO")
        ++ [Item is_space Star false]).
  split.
  - intros [gs Hr]. apply run_sound in Hr.
    apply matches_plain_inv in Hr as (ws1 & s1 & -> & H1 & _ & Hr).
    apply matches_letters_inv in Hr as (k & s2 & -> & Hk & Hr).
    apply matches_plain_inv in Hr as (ws2 & s3 & -> & H2 & H2' & Hr).
    apply matches_plain_inv in Hr as (ds & s4 & -> & Hd & Hd' & Hr).
    apply matches_plain_inv in Hr as (ws3 & s5 & -> & H3 & H3' & Hr).
    apply matches_letters_inv in Hr as (a & s6 & -> & Ha & Hr).
    apply matches_plain_inv in Hr as (ws4 & s7 & -> & H4 & _ & Hr).
    apply matches_end_inv in Hr as [_ H5].
    exists ws1, k, ws2, ds, ws3, a, (ws4 ++ s7).
    repeat split; try done. by apply blank_app.
  - intros (ws1 & k & ws2 & ds & ws3 & a & ws4 & -> & H1 & Hk & H2 & H2'
            & Hd & Hd' & H3 & H3' & Ha & H4).
    apply (run_complete _ _ []).
    apply matches_blank; [done..|]. apply matches_letters; [done|].
    apply matches_blank; [done..|].
    apply (matches_item (Item is_decimal Plus false)); [done..|].
    apply matches_blank; [done..|]. apply matches_letters; [done|].
    rewrite <- (app_nil_r ws4). apply matches_blank; [done..|].
    by constructor.
Qed.

Lemma track_line_witness :
  exists ws1 k ws2 ds ws3 a ws4,
    py "  track 07 Audio " = ws1 ++ k ++ ws2 ++ ds ++ ws3 ++ a ++ ws4
    /\ blank ws1 /\ spells k "TRACK"
    /\ blank ws2 /\ ws2 <> []
    /\ Forall (fun ch => is_decimal ch = true) ds /\ ds <> []
    /\ blank ws3 /\ ws3 <> []
    /\ spells a "AUDIO" /\ blank ws4.
Proof. apply (proj1 (track_line (py "  track 07 Audio "))). reflexivity. Defined.

(** The lines of the shape [KEYWORD "text"]. *)
Lemma quoted_form keyword line gs :
  dquote ∉ casefold <$> py keyword ->
  run (Item is_space Star false :: (lit <$> py keyword)
       ++ [Item is_space Plus false; lit dquote; quoted; lit dquote;
           Item is_space Star false]) line = Some gs
  <->
  exists ws1 k ws2 w ws3,
    line = ws1 ++ k ++ ws2 ++ in_quotes w ++ ws3
    /\ blank ws1 /\ spells k keyword /\ blank ws2 /\ ws2 <> []
    /\ w <> [] /\ (dquote ∉ w) /\ blank ws3
    /\ gs = [w].
Proof.
  intros Hkey.
  assert (Hsound : forall gs', run (Item is_space Star false :: (lit <$> py keyword)
       ++ [Item is_space Plus false; lit dquote; quoted; lit dquote;
           Item is_space Star false]) line = Some gs' ->
    exists ws1 k ws2 w ws3,
      line = ws1 ++ k ++ ws2 ++ in_quotes w ++ ws3
      /\ blank ws1 /\ spells k keyword /\ blank ws2 /\ ws2 <> []
      /\ w <> [] /\ (dquote ∉ w) /\ blank ws3 /\ gs' = [w]).
  { intros gs' Hr. apply run_sound in Hr.
    apply matches_plain_inv in Hr as (ws1 & s1 & -> & H1 & _ & Hr).
    apply matches_letters_inv in Hr as (k & s2 & -> & Hk & Hr).
    apply matches_plain_inv in Hr as (ws2 & s3 & -> & H2 & H2' & Hr).
    apply matches_plain_inv in Hr as (q1 & s4 & -> & Hq1 & Hq1' & Hr).
    apply matches_group_inv in Hr as (w & s5 & gs1 & -> & -> & Hw & Hw' & Hr).
    apply matches_plain_inv in Hr as (q2 & s6 & -> & Hq2 & Hq2' & Hr).
    apply matches_plain_inv in Hr as (ws3 & s7 & -> & H3 & _ & Hr).
    apply matches_end_inv in Hr as [-> H4].
    cbn [fits] in Hq1', Hq2'.
    destruct q1 as [|c1 [|? ?]]; try done. destruct q2 as [|c2 [|? ?]]; try done.
    apply Forall_singleton, bool_decide_eq_true, casefold_dquote in Hq1, Hq2.
    subst c1 c2.
    exists ws1, k, ws2, w, (ws3 ++ s7). unfold in_quotes.
    rewrite <- !app_assoc. repeat split; try done; [|by apply blank_app].
    intros Hin. rewrite Forall_forall in Hw. apply Hw in Hin.
    by rewrite bool_decide_eq_true_2 in Hin. }
  split; [apply Hsound|].
  intros (ws1 & k & ws2 & w & ws3 & -> & H1 & Hk & H2 & H2' & Hw' & Hw & H3 & ->).
  assert (Hm : matches (Item is_space Star false :: (lit <$> py keyword)
       ++ [Item is_space Plus false; lit dquote; quoted; lit dquote;
           Item is_space Star false])
       (ws1 ++ k ++ ws2 ++ in_quotes w ++ ws3) [w]).
  { apply matches_blank; [done..|]. apply matches_letters; [done|].
    apply matches_blank; [done..|]. unfold in_quotes. rewrite <- !app_assoc.
    apply (matches_item (lit dquote) _ [dquote] _ [w]);
      [by apply Forall_singleton, bool_decide_eq_true|done|].
    apply (matches_item quoted _ w _ []); [|done|].
    { apply Forall_forall. intros ch Hch. apply negb_true_iff, bool_decide_eq_false.
      by intros ->. }
    apply (matches_item (lit dquote) _ [dquote] _ []);
      [by apply Forall_singleton, bool_decide_eq_true|done|].
    rewrite <- (app_nil_r ws3). apply matches_blank; [done..|]. by constructor. }
  destruct (run_complete _ _ _ Hm) as [gs' Hr]. rewrite Hr. f_equal.
  destruct (Hsound _ Hr)
    as (ws1' & k' & ws2' & w' & ws3' & He & H1' & Hk' & H2'' & _ & _ & Hw'' & _ & ->).
  f_equal. unfold in_quotes in He.
  assert (He' : (ws1 ++ k ++ ws2) ++ dquote :: w ++ dquote :: ws3
                = (ws1' ++ k' ++ ws2') ++ dquote :: w' ++ dquote :: ws3').
  { rewrite <- !app_assoc in He. rewrite <- !app_assoc. exact He. }
  clear He. rename He' into He.
  apply first_occurrence_unique in He as [_ He].
  - apply first_occurrence_unique in He as [He _]; done.
  - rewrite !not_elem_of_app.
    repeat split; eauto using blank_no_dquote, spells_no_dquote.
  - rewrite !not_elem_of_app.
    repeat split; eauto using blank_no_dquote, spells_no_dquote.
Qed.

(** X7: the lines from which [parse_cue_artist_album] takes the artist and
    the album.  A line matches [PERFORMER_RE] (or [TITLE_RE]) exactly when
    it reads: optional whitespace, the keyword in any case, whitespace, a
    text in double quotes that is not empty and holds no double quote,
    optional whitespace; the one group captured is that text. *)
Theorem metadata_line (line : list Z) (gs : list (list Z)) :
  (re_match PERFORMER_RE line = Some gs <->
     exists w ws, quoted_shape "PERFORMER" line w ws /\ blank ws /\ gs = [w])
  /\ (re_match TITLE_RE line = Some gs <->
     exists w ws, quoted_shape "TITLE" line w ws /\ blank ws /\ gs = [w]).
Proof.
  assert (H : forall keyword, dquote ∉ casefold <$> py keyword ->
    run (Item is_space Star false :: (lit <$> py keyword)
         ++ [Item is_space Plus false; lit dquote; quoted; lit dquote;
             Item is_space Star false]) line = Some gs
    <-> exists w ws, quoted_shape keyword line w ws /\ blank ws /\ gs = [w]).
  { intros keyword Hk. rewrite (quoted_form keyword line gs Hk). unfold quoted_shape.
    split.
    - intros (ws1 & k & ws2 & w & ws3 & ?). exists w, ws3. split; [|tauto].
      exists ws1, k, ws2. tauto.
    - intros (w & ws3 & (ws1 & k & ws2 & ?) & ?). exists ws1, k, ws2, w, ws3. tauto. }
  split; apply H; vm_compute; intros Hin;
    repeat (apply elem_of_cons in Hin as [Hin|Hin]; [discriminate Hin|]);
    by apply elem_of_nil in Hin.
Qed.

Lemma metadata_line_witness :
  exists w ws,
    quoted_shape "PERFORMER" (quoted_line "performer" " Test Artist " "  ") w ws
    /\ blank ws /\ [py " Test Artist "] = [w].
Proof.
  apply (proj1 (proj1 (metadata_line
    (quoted_line "performer" " Test Artist " "  ") [py " Test Artist "]))).
  reflexivity.
Defined.

(** X8: the lines from which [parse_cue_files] takes its names.  A line
    matches [FILE_RE] exactly when it reads: optional whitespace, the word
    FILE in any case, whitespace, a name in double quotes that is not
    empty and holds no double quote, whitespace, a type word without
    whitespace, optional whitespace; the two groups captured are the name
    and the type. *)
Theorem file_line (line : list Z) (gs : list (list Z)) :
  re_match FILE_RE line = Some gs <->
  exists w ws3 t ws4,
    quoted_shape "FILE" line w (ws3 ++ t ++ ws4)
    /\ blank ws3 /\ ws3 <> [] /\ solid t /\ t <> [] /\ blank ws4
    /\ gs = [w; t].
Proof.
  unfold re_match.
  change FILE_RE with
    (Item is_space Star false :: (lit <$> py "FILE")
     ++ [Item is_space Plus false; lit dquote; quoted; lit dquote;
         Item is_space Plus false; Item (fun ch => negb (is_space ch)) Plus true;
         Item is_space Star false]).
  assert (Hsound : forall gs', run (Item is_space Star false :: (lit <$> py "FILE")
     ++ [Item is_space Plus false; lit dquote; quoted; lit dquote;
         Item is_space Plus false; Item (fun ch => negb (is_space ch)) Plus true;
         Item is_space Star false]) line = Some gs' ->
    exists w ws3 t ws4,
      quoted_shape "FILE" line w (ws3 ++ t ++ ws4)
      /\ blank ws3 /\ ws3 <> [] /\ solid t /\ t <> [] /\ blank ws4
      /\ gs' = [w; t]).
  { intros gs' Hr. apply run_sound in Hr.
    apply matches_plain_inv in Hr as (ws1 & s1 & -> & H1 & _ & Hr).
    apply matches_letters_inv in Hr as (k & s2 & -> & Hk & Hr).
    apply matches_plain_inv in Hr as (ws2 & s3 & -> & H2 & H2' & Hr).
    apply matches_plain_inv in Hr as (q1 & s4 & -> & Hq1 & Hq1' & Hr).
    apply matches_group_inv in Hr as (w & s5 & gs1 & -> & -> & Hw & Hw' & Hr).
    apply matches_plain_inv in Hr as (q2 & s6 & -> & Hq2 & Hq2' & Hr).
    apply matches_plain_inv in Hr as (ws3 & s7 & -> & H3 & H3' & Hr).
    apply matches_group_inv in Hr as (t & s8 & gs2 & -> & -> & Ht & Ht' & Hr).
    apply matches_plain_inv in Hr as (ws4 & s9 & -> & H4 & _ & Hr).
    apply matches_end_inv in Hr as [-> H5].
    cbn [fits] in Hq1', Hq2'.
    destruct q1 as [|c1 [|? ?]]; try done. destruct q2 as [|c2 [|? ?]]; try done.
    apply Forall_singleton, bool_decide_eq_true, casefold_dquote in Hq1, Hq2.
    subst c1 c2.
    exists w, ws3, t, (ws4 ++ s9). repeat split; try done.
    - exists ws1, k, ws2. unfold in_quotes. rewrite <- !app_assoc.
      repeat split; try done.
      intros Hin. rewrite Forall_forall in Hw. apply Hw in Hin.
      by rewrite bool_decide_eq_true_2 in Hin.
    - eapply Forall_impl; [exact Ht|]. intros ch Hch. by apply negb_true_iff.
    - by apply blank_app. }
  split; [apply Hsound|].
  intros (w & ws3 & t & ws4 & (ws1 & k & ws2 & -> & H1 & Hk & H2 & H2' & Hw' & Hw)
          & H3 & H3' & Ht & Ht' & H4 & ->).
  assert (Hm : matches (Item is_space Star false :: (lit <$> py "FILE")
     ++ [Item is_space Plus false; lit dquote; quoted; lit dquote;
         Item is_space Plus false; Item (fun ch => negb (is_space ch)) Plus true;
         Item is_space Star false])
     (ws1 ++ k ++ ws2 ++ in_quotes w ++ ws3 ++ t ++ ws4) [w; t]).
  { apply matches_blank; [done..|]. apply matches_letters; [done|].
    apply matches_blank; [done..|]. unfold in_quotes. rewrite <- !app_assoc.
    apply (matches_item (lit dquote) _ [dquote] _ [w; t]);
      [by apply Forall_singleton, bool_decide_eq_true|done|].
    apply (matches_item quoted _ w _ [t]); [|done|].
    { apply Forall_forall. intros ch Hch. apply negb_true_iff, bool_decide_eq_false.
      by intros ->. }
    apply (matches_item (lit dquote) _ [dquote] _ [t]);
      [by apply Forall_singleton, bool_decide_eq_true|done|].
    apply matches_blank; [done..|].
    apply (matches_item (Item (fun ch => negb (is_space ch)) Plus true) _ t _ []);
      [|done|].
    { eapply Forall_impl; [exact Ht|]. intros ch Hch. by apply negb_true_iff. }
    rewrite <- (app_nil_r ws4). apply matches_blank; [done..|]. by constructor. }
  destruct (run_complete _ _ _ Hm) as [gs' Hr]. rewrite Hr. f_equal.
  destruct (Hsound _ Hr)
    as (w' & ws3' & t' & ws4' & (ws1' & k' & ws2' & He & H1' & Hk' & H2'' & _ & _ & Hw'')
        & H3'' & _ & Ht'' & Hn'' & H4' & ->).
  unfold in_quotes in He.
  assert (He' : (ws1 ++ k ++ ws2) ++ dquote :: w ++ dquote :: ws3 ++ t ++ ws4
                = (ws1' ++ k' ++ ws2') ++ dquote :: w' ++ dquote :: ws3' ++ t' ++ ws4').
  { rewrite <- !app_assoc in He. rewrite <- !app_assoc. exact He. }
  clear He. rename He' into He.
  assert (Hkey : dquote ∉ casefold <$> py "FILE").
  { vm_compute. intros Hin.
    repeat (apply elem_of_cons in Hin as [Hin|Hin]; [discriminate Hin|]).
    by apply elem_of_nil in Hin. }
  apply first_occurrence_unique in He as [_ He].
  2,3: rewrite !not_elem_of_app;
       repeat split; eauto using blank_no_dquote, spells_no_dquote.
  apply first_occurrence_unique in He as [-> He]; [|done..].
  f_equal. f_equal.
  destruct t as [|c t]; [done|]. destruct t' as [|c' t']; [done|].
  apply Forall_cons in Ht as [Hc Ht]. apply Forall_cons in Ht'' as [Hc' Ht''].
  cbn [app] in He.
  apply blank_prefix_unique in He as [_ He]; [|done..].
  change ((c :: t) ++ ws4 = (c' :: t') ++ ws4') in He.
  apply solid_prefix_unique in He; [done| | |done|done]; by constructor.
Qed.

Lemma file_line_witness :
  exists w ws3 t ws4,
    quoted_shape "FILE" (quoted_line " File" "My Album.flac" "  WAVE ") w (ws3 ++ t ++ ws4)
    /\ blank ws3 /\ ws3 <> [] /\ solid t /\ t <> [] /\ blank ws4
    /\ [py "My Album.flac"; py "WAVE"] = [w; t].
Proof.
  apply (proj1 (file_line (quoted_line " File" "My Album.flac" "  WAVE ")
                  [py "My Album.flac"; py "WAVE"])).
  reflexivity.
Defined.

(** A line that matches a pattern beginning with [\s*] and two letters
    has them first after its leading whitespace. *)
Lemma keyword_start a b rest line :
  97 <= casefold a <= 122 ->
  is_Some (run (Item is_space Star false :: lit a :: lit b :: rest) line) ->
  exists ws c1 c2 r,
    line = ws ++ c1 :: c2 :: r /\ blank ws
    /\ casefold c1 = casefold a /\ casefold c2 = casefold b.
Proof.
  intros Ha [gs Hr]. apply run_sound in Hr.
  apply matches_plain_inv in Hr as (ws & s1 & -> & Hws & _ & Hr).
  apply (matches_letters_inv [a; b]) in Hr as (k & s2 & -> & Hk & _).
  destruct k as [|c1 [|c2 [|? ?]]]; try done. injection Hk as H1 H2.
  by exists ws, c1, c2, s2.
Qed.

Lemma keywords_clash a b a' b' rest rest' line :
  97 <= casefold a <= 122 -> 97 <= casefold a' <= 122 ->
  (casefold a, casefold b) <> (casefold a', casefold b') ->
  is_Some (run (Item is_space Star false :: lit a :: lit b :: rest) line) ->
  ~ is_Some (run (Item is_space Star false :: lit a' :: lit b' :: rest') line).
Proof.
  intros Ha Ha' Hne H H'.
  apply keyword_start in H as (ws & c1 & c2 & r & -> & Hws & H1 & H2); [|done].
  apply keyword_start in H' as (ws' & c1' & c2' & r' & He & Hws' & H1' & H2'); [|done].
  apply blank_prefix_unique in He as [_ He];
    eauto using letter_not_space.
  injection He as -> -> _. congruence.
Qed.

(** X9: no line matches two of the four patterns: a track marker is no
    [FILE], [PERFORMER] or [TITLE] line, and so on; each line of a sheet
    feeds at most one of the parsers' branches. *)
Theorem patterns_disjoint (line : list Z) :
  (is_Some (re_match FILE_RE line) ->
     re_match TRACK_RE line = None /\ re_match PERFORMER_RE line = None
     /\ re_match TITLE_RE line = None)
  /\ (is_Some (re_match TRACK_RE line) ->
     re_match PERFORMER_RE line = None /\ re_match TITLE_RE line = None)
  /\ (is_Some (re_match PERFORMER_RE line) -> re_match TITLE_RE line = None).
Proof.
  assert (Hnone : forall o : option (list (list Z)), ~ is_Some o -> o = None).
  { intros [x|] H; [|done]. destruct H. eauto. }
  unfold re_match.
  change FILE_RE with (Item is_space Star false :: lit 70 :: lit 73 :: drop 3 FILE_RE).
  change TRACK_RE with (Item is_space Star false :: lit 84 :: lit 82 :: drop 3 TRACK_RE).
  change PERFORMER_RE
    with (Item is_space Star false :: lit 80 :: lit 69 :: drop 3 PERFORMER_RE).
  change TITLE_RE with (Item is_space Star false :: lit 84 :: lit 73 :: drop 3 TITLE_RE).
  split; [|split]; intros Hline; repeat split; apply Hnone;
    (eapply keywords_clash; [| | |exact Hline]); vm_compute; try discriminate;
    split; discriminate.
Qed.

Lemma patterns_disjoint_witness :
  re_match PERFORMER_RE (py "  TRACK 01 AUDIO") = None
  /\ re_match TITLE_RE (py "  TRACK 01 AUDIO") = None.
Proof.
  apply (proj1 (proj2 (patterns_disjoint (py "  TRACK 01 AUDIO")))).
  vm_compute. eauto.
Defined.

(** ** Stripped names *)

Lemma lstrip_blank w : blank w -> lstrip w = [].
Proof. induction 1 as [|c w Hc Hw IH]; [done|]. cbn [lstrip]. by rewrite Hc. Qed.

Lemma lstrip_app w v :
  lstrip (w ++ v) = match lstrip w with [] => lstrip v | u => u ++ v end.
Proof.
  induction w as [|c w IH]; [done|]. cbn [app lstrip].
  destruct (is_space c); [apply IH|done].
Qed.

Lemma lstrip_idem w : lstrip (lstrip w) = lstrip w.
Proof.
  induction w as [|c w IH]; [done|]. cbn [lstrip].
  destruct (is_space c) eqn:Hc; [done|]. cbn [lstrip]. by rewrite Hc.
Qed.

Lemma rstrip_cons c w :
  rstrip (c :: w) =
  match rstrip w with
  | [] => if is_space c then [] else [c]
  | u => c :: u
  end.
Proof.
  unfold rstrip. rewrite reverse_cons, lstrip_app.
  destruct (lstrip (reverse w)) as [|d u] eqn:Hl.
  - cbn [lstrip reverse]. destruct (is_space c); done.
  - rewrite reverse_app, reverse_singleton. cbn [app].
    destruct (reverse (d :: u)) as [|? ?] eqn:Hr; [|done].
    apply (f_equal length) in Hr. rewrite length_reverse in Hr. done.
Qed.

(** Stripping what was stripped changes nothing. *)
Lemma strip_idem w : strip (strip w) = strip w.
Proof.
  unfold strip.
  assert (Hr : forall u, rstrip (rstrip u) = rstrip u).
  { intros u. unfold rstrip. by rewrite reverse_involutive, lstrip_idem. }
  assert (Hl : forall u, lstrip u = u -> lstrip (rstrip u) = rstrip u).
  { intros [|c u] Hu; [done|]. cbn [lstrip] in Hu.
    destruct (is_space c) eqn:Hc.
    - exfalso. apply (f_equal length) in Hu. cbn [length] in Hu.
      assert (length (lstrip u) <= length u)%nat; [|lia].
      clear. induction u as [|d u IH]; [done|]. cbn [lstrip].
      destruct (is_space d); cbn [length]; lia.
    - rewrite rstrip_cons. destruct (rstrip u); rewrite ?Hc; cbn [lstrip]; by rewrite Hc. }
  rewrite Hl by apply lstrip_idem. apply Hr.
Qed.

Lemma first_capture_stripped p lines a :
  first_capture p lines = Some a -> strip a = a.
Proof.
  induction lines as [|line rest IH]; [done|]. cbn [first_capture].
  destruct (re_match p line); [|done]. intros [= <-]. apply strip_idem.
Qed.

(** X10: the artist and the album that [parse_cue_artist_album] returns
    carry no whitespace at either end: stripping them again changes
    nothing. *)
Theorem parse_cue_artist_album_stripped (h : host) (cue : Path) :
  exists artist album,
    parse_cue_artist_album h cue = Ok (artist, album)
    /\ (forall a, artist = Some a -> strip a = a)
    /\ (forall b, album = Some b -> strip b = b).
Proof.
  unfold parse_cue_artist_album.
  destruct (read_text_guessing h cue) as [text|e]; cbn [fmap result_fmap].
  - rewrite artist_album_loop_spec. cbn [or_else].
    eexists _, _. split; [done|]. split; intros ?; apply first_capture_stripped.
  - exists None, None. done.
Qed.

Lemma parse_cue_artist_album_stripped_witness :
  parse_cue_artist_album (memory_host library) (path "/in/album.cue")
    = Ok (Some (py "Test Artist"), Some (py "Test Album"))
  /\ strip (py "Test Artist") = py "Test Artist".
Proof.
  destruct (parse_cue_artist_album_stripped (memory_host library) (path "/in/album.cue"))
    as (artist & album & Hrun & Ha & _).
  assert (He : artist = Some (py "Test Artist") /\ album = Some (py "Test Album")).
  { change (Ok (Some (py "Test Artist"), Some (py "Test Album")) = Ok (artist, album))
      in Hrun. injection Hrun as <- <-. done. }
  destruct He as [-> ->]. split; [exact Hrun|]. by apply Ha.
Defined.

(** ** The text decoder *)

(** An encoding is passed over when its strict decoding fails or holds
    U+FFFD. *)
Lemma try_encodings_skip h raw pre : forall rest,
  Forall (fun enc => match decode h enc raw with
                     | Some text => REPLACEMENT ∈ text
                     | None => True
                     end) pre ->
  try_encodings h (pre ++ rest) raw = try_encodings h rest raw.
Proof.
  induction pre as [|enc pre IH]; intros rest Hpre; [done|].
  apply Forall_cons in Hpre as [Henc Hpre]. cbn [app try_encodings].
  destruct (decode h enc raw) as [text|]; [|by apply IH].
  rewrite bool_decide_eq_false_2 by auto. by apply IH.
Qed.

(** X11: [read_text_guessing] returns the strict decoding of the first
    encoding of its list that succeeds without U+FFFD: when every
    encoding before [enc] fails or gives U+FFFD and [enc] decodes to a
    text without it, that text is the result. *)
Theorem decode_guessing_first (h : host) (raw : bytes) (pre post : list string)
    (enc : string) (text : list Z) :
  ENCODINGS = pre ++ enc :: post ->
  Forall (fun enc' => match decode h enc' raw with
                      | Some t => REPLACEMENT ∈ t
                      | None => True
                      end) pre ->
  decode h enc raw = Some text -> REPLACEMENT ∉ text ->
  decode_guessing h raw = text.
Proof.
  intros He Hpre Hd Hr. unfold decode_guessing. rewrite He.
  rewrite try_encodings_skip by done. cbn [try_encodings].
  rewrite Hd. by rewrite bool_decide_eq_true_2.
Qed.

Lemma decode_guessing_first_witness :
  decode_guessing (memory_host library) (ascii_bytes (py "TITLE")) = py "TITLE".
Proof.
  apply (decode_guessing_first (memory_host library) (ascii_bytes (py "TITLE"))
           ["utf-8-sig"; "utf-16"; "utf-16le"; "utf-16be"; "cp1251"]%string []
           "latin-1"%string (py "TITLE")).
  - reflexivity.
  - repeat constructor.
  - reflexivity.
  - apply (bool_decide_eq_true_1 (REPLACEMENT ∉ py "TITLE")). reflexivity.
Defined.

(** ** More on [parse_cue_files] *)

Lemma mapM_cons {A B} (f : A -> result B) a l :
  mapM f (a :: l) = f a ≫= fun b => mapM f l ≫= fun bs => Ok (b :: bs).
Proof. reflexivity. Qed.

Lemma mapM_absolute h cue names :
  Forall (fun name => is_absolute h (path_of h name) = true) names ->
  mapM (resolve_ref h cue) names = Ok (path_of h <$> names).
Proof.
  induction 1 as [|name names Hn Hrest IH]; [done|].
  rewrite mapM_cons, IH. unfold resolve_ref. by rewrite Hn.
Qed.

(** X12: when every [FILE] name of a readable sheet is absolute,
    [parse_cue_files] resolves nothing and cannot raise: it returns the
    paths as written, without those whose string came before. *)
Theorem parse_cue_files_absolute (h : host) (cue : Path) (text : list Z) :
  read_text_guessing h cue = Ok text ->
  Forall (fun name => is_absolute h (path_of h name) = true)
    (file_names (splitlines text)) ->
  parse_cue_files h cue
  = Ok (keep_first [] (path_of h <$> file_names (splitlines text))).
Proof.
  intros Hr Ha. rewrite parse_cue_files_keep_first, Hr.
  by rewrite mapM_absolute.
Qed.

Lemma mapM_length {A B} (f : A -> result B) (l : list A) rs :
  mapM f l = Ok rs -> length rs = length l.
Proof.
  revert rs. induction l as [|a l IH]; intros rs.
  - by intros [= <-].
  - rewrite mapM_cons. destruct (f a) as [b|e]; [|done]. result_step.
    destruct (mapM f l) as [bs|e]; [|done]. result_step.
    intros [= <-]. cbn [length]. by rewrite (IH bs).
Qed.

Lemma file_names_length lines :
  length (file_names lines)
  = length (filter (fun line => is_Some (re_match FILE_RE line)) lines).
Proof.
  unfold file_names. induction lines as [|line rest IH]; [done|].
  cbn [omap list_omap]. rewrite filter_cons.
  destruct (re_match FILE_RE line) as [gs|]; cbn [fmap option_fmap option_map].
  - rewrite decide_True by eauto. cbn [length]. by rewrite IH.
  - rewrite decide_False by (intros [? ?]; done). done.
Qed.

(** X13: what [parse_cue_files] returns for a readable sheet holds no two
    paths with the same string and at most as many paths as the sheet has
    lines that match [FILE_RE]. *)
Theorem parse_cue_files_bound (h : host) (cue : Path) (text : list Z)
    (refs : list Path) :
  read_text_guessing h cue = Ok text ->
  parse_cue_files h cue = Ok refs ->
  NoDup (path_str <$> refs)
  /\ (length refs
      <= length (filter (fun line => is_Some (re_match FILE_RE line))
                   (splitlines text)))%nat.
Proof.
  intros Hr. rewrite parse_cue_files_keep_first, Hr.
  destruct (mapM _ _) as [rs|e] eqn:Hm; cbn [fmap result_fmap]; [|done].
  intros [= <-]. split; [apply keep_first_fresh|].
  rewrite <- file_names_length, <- (mapM_length _ _ _ Hm).
  apply sublist_length, keep_first_sublist.
Qed.

Lemma keep_first_seen r n : forall earlier,
  path_str r ∈ earlier -> keep_first earlier (replicate n r) = [].
Proof.
  induction n as [|n IH]; intros earlier Hin; [done|].
  cbn [replicate keep_first]. rewrite bool_decide_eq_true_2 by done.
  apply IH, elem_of_app. by left.
Qed.

Lemma mapM_replicate {A B} (f : A -> result B) a b n :
  f a = Ok b -> mapM f (replicate n a) = Ok (replicate n b).
Proof.
  intros Hf. induction n as [|n IH]; [done|].
  cbn [replicate]. by rewrite mapM_cons, Hf, IH.
Qed.

(** X14: a sheet whose [FILE] lines all give the same name refers to one
    file: [parse_cue_files] returns the one path, however often the line
    is repeated. *)
Theorem parse_cue_files_same_name (h : host) (cue : Path) (text name : list Z)
    (n : nat) (r : Path) :
  read_text_guessing h cue = Ok text ->
  file_names (splitlines text) = replicate (S n) name ->
  resolve_ref h cue name = Ok r ->
  parse_cue_files h cue = Ok [r].
Proof.
  intros Hr Hn Hres. rewrite parse_cue_files_keep_first, Hr, Hn.
  rewrite (mapM_replicate _ _ r) by done. cbn [fmap result_fmap]. f_equal.
  cbn [replicate keep_first]. rewrite bool_decide_eq_false_2 by apply not_elem_of_nil.
  rewrite keep_first_seen; [done|]. apply list_elem_of_here.
Qed.

(** ** More on the decision engine *)

(** X15: a sheet with more than one track marker and one reference that
    does not exist is rejected with the reason "audio file not found",
    with or without [force]. *)
Theorem should_process_not_found (h : host) (cue out_dir ref : Path) (force : bool)
    (N : Z) :
  count_cue_tracks h cue = Ok N -> 1 < N ->
  parse_cue_files h cue = Ok [ref] ->
  exists_ h ref = Ok false ->
  should_process h cue out_dir force = Ok (false, py "audio file not found").
Proof.
  intros Hc Hn Hf He. unfold should_process. rewrite Hc. result_step.
  rewrite (proj2 (Z.leb_gt N 1) Hn), Hf. result_step.
  change (len [ref] =? 0) with false. change (len [ref] >? 1) with false.
  unfold find_audio_file. rewrite He. result_step.
  rewrite bool_decide_eq_false_2; [done|]. intros [? ?]. done.
Qed.

(** What an acceptance of [should_process] tells. *)
Lemma should_process_accept_inv h cue out_dir force reason :
  should_process h cue out_dir force = Ok (true, reason) ->
  exists N ref,
    count_cue_tracks h cue = Ok N /\ 1 < N
    /\ parse_cue_files h cue = Ok [ref]
    /\ exists_ h ref = Ok true
    /\ reason = str_of_int N ++ py " tracks"
    /\ (force = true
        \/ exists M, count_audio_files h out_dir = Ok M /\ M <> N).
Proof.
  unfold should_process.
  destruct (count_cue_tracks h cue) as [N|e] eqn:Hc; [|done]. result_step.
  destruct (N <=? 1) eqn:Hn; [done|]. apply Z.leb_gt in Hn.
  destruct (parse_cue_files h cue) as [refs|e] eqn:Hf; [|done]. result_step.
  destruct (len refs =? 0) eqn:H0; [done|].
  destruct (len refs >? 1) eqn:H1; [done|].
  destruct refs as [|ref [|ref' refs]]; [discriminate H0| |].
  2:{ exfalso. rewrite Z.gtb_ltb in H1. apply Z.ltb_ge in H1.
      unfold len in H1. cbn [length] in H1. lia. }
  unfold find_audio_file.
  destruct (exists_ h ref) as [[|]|e] eqn:He; [| |done]; result_step.
  2:{ rewrite bool_decide_eq_false_2 by (intros [? ?]; done). done. }
  rewrite bool_decide_eq_true_2 by eauto. cbn [negb].
  destruct force; cbn [negb].
  - intros [= <-]. exists N, ref. eauto 10.
  - destruct (count_audio_files h out_dir) as [M|e] eqn:Hm; [|done]. result_step.
    destruct (M =? N) eqn:Hmn; [done|]. apply Z.eqb_neq in Hmn.
    intros [= <-]. exists N, ref. eauto 10.
Qed.

(** X16: a sheet is accepted only if it has more than one track marker
    and exactly one reference, which exists, and then the reason is
    "N tracks"; without [force] the count of audio files of [out_dir]
    moreover differs from the track count. *)
Theorem should_process_accept (h : host) (cue out_dir : Path) (force : bool)
    (reason : list Z) :
  should_process h cue out_dir force = Ok (true, reason) ->
  exists N ref,
    count_cue_tracks h cue = Ok N /\ 1 < N
    /\ parse_cue_files h cue = Ok [ref]
    /\ exists_ h ref = Ok true
    /\ reason = str_of_int N ++ py " tracks"
    /\ (force = true
        \/ exists M, count_audio_files h out_dir = Ok M /\ M <> N).
Proof. apply should_process_accept_inv. Qed.

Lemma should_process_accept_witness :
  exists N ref,
    count_cue_tracks (memory_host library) (path "/in/album.cue") = Ok N /\ 1 < N
    /\ parse_cue_files (memory_host library) (path "/in/album.cue") = Ok [ref]
    /\ exists_ (memory_host library) ref = Ok true
    /\ py "2 tracks" = str_of_int N ++ py " tracks"
    /\ (false = true
        \/ exists M, count_audio_files (memory_host library) (path "/out/part") = Ok M
                     /\ M <> N).
Proof.
  apply (should_process_accept (memory_host library) (path "/in/album.cue")
           (path "/out/part") false (py "2 tracks")).
  reflexivity.
Defined.

(** What [should_process] returns with [force]. *)
Lemma should_process_forced h cue out_dir N ref :
  count_cue_tracks h cue = Ok N -> 1 < N ->
  parse_cue_files h cue = Ok [ref] -> exists_ h ref = Ok true ->
  should_process h cue out_dir true = Ok (true, str_of_int N ++ py " tracks").
Proof.
  intros Hc Hn Hf He. unfold should_process. rewrite Hc. result_step.
  rewrite (proj2 (Z.leb_gt N 1) Hn), Hf. result_step.
  change (len [ref] =? 0) with false. change (len [ref] >? 1) with false.
  unfold find_audio_file. rewrite He. result_step.
  by rewrite bool_decide_eq_true_2 by eauto.
Qed.

(** X17: [force] can only turn a rejection into an acceptance.  A sheet
    accepted without [force] is accepted with it, for the same reason;
    and a sheet rejected with [force] is rejected for the same reason
    without it, whatever the output directory. *)
Theorem should_process_force (h : host) (cue out_dir : Path) (reason : list Z) :
  (should_process h cue out_dir false = Ok (true, reason) ->
   should_process h cue out_dir true = Ok (true, reason))
  /\ (should_process h cue out_dir true = Ok (false, reason) ->
      forall out_dir' force,
        should_process h cue out_dir' force = Ok (false, reason)).
Proof.
  split.
  - intros Ha.
    apply should_process_accept_inv in Ha as (N & ref & Hc & Hn & Hf & He & -> & _).
    by apply (should_process_forced h cue out_dir N ref).
  - unfold should_process.
    destruct (count_cue_tracks h cue) as [N|e] eqn:Hc; [|done]. result_step.
    destruct (N <=? 1) eqn:Hn; [done|].
    destruct (parse_cue_files h cue) as [refs|e] eqn:Hf; [|done]. result_step.
    destruct (len refs =? 0) eqn:H0; [done|].
    destruct (len refs >? 1) eqn:H1; [done|].
    destruct (find_audio_file h refs) as [audio|e]; [|done]. result_step.
    destruct (negb (bool_decide (is_Some audio))); [done|].
    cbn [negb]. done.
Qed.

Lemma should_process_force_witness :
  should_process (memory_host library) (path "/in/album.cue") (path "/out/part") true
    = Ok (true, py "2 tracks")
  /\ should_process (memory_host library) (path "/in/split.cue") (path "/out/full") false
    = Ok (false, py "multi-file CUE (already split)").
Proof.
  split.
  - apply (proj1 (should_process_force (memory_host library) (path "/in/album.cue")
                    (path "/out/part") (py "2 tracks"))). reflexivity.
  - apply (proj2 (should_process_force (memory_host library) (path "/in/split.cue")
                    (path "/out/part") (py "multi-file CUE (already split)"))).
    reflexivity.
Defined.


(** ** More on [count_audio_files] *)

Lemma count_where_bound h ps n :
  count_where h ps = Ok n -> 0 <= n <= len ps.
Proof.
  revert n. induction ps as [|q ps IH]; intros n; cbn [count_where].
  - intros [= <-]. unfold len. simpl. lia.
  - destruct (is_audio h q) as [b|e]; [|done]. result_step.
    destruct (count_where h ps) as [n'|e]; [|done]. result_step.
    intros [= <-]. specialize (IH _ eq_refl). unfold len in *. cbn [length].
    destruct b; lia.
Qed.

(** X19: once the existence test of the directory has returned,
    [count_audio_files] raises nothing; its count is at least 0 and at
    most the number of entries of the directory. *)
Theorem count_audio_files_total (h : host) (directory : Path) (b : bool) :
  exists_ h directory = Ok b ->
  exists n,
    count_audio_files h directory = Ok n
    /\ 0 <= n
    /\ forall ps, iterdir h directory = Ok ps -> n <= len ps.
Proof.
  intros He. unfold count_audio_files. rewrite He. result_step.
  destruct b; cbn [negb].
  - destruct (iterdir h directory) as [ps|e]; result_step.
    + destruct (count_where h ps) as [n|e] eqn:Hn; cbn [try_except].
      * apply count_where_bound in Hn. exists n. split; [done|]. split; [lia|].
        intros ps' [= <-]. lia.
      * exists 0. split; [done|]. split; [lia|]. intros. apply len_nonneg.
    + exists 0. repeat split; [lia|done].
  - exists 0. split; [done|]. split; [lia|]. intros. apply len_nonneg.
Qed.

Lemma count_audio_files_total_witness :
  exists n,
    count_audio_files (memory_host library) (path "/out/full") = Ok n
    /\ 0 <= n
    /\ forall ps, iterdir (memory_host library) (path "/out/full") = Ok ps -> n <= len ps.
Proof.
  apply (count_audio_files_total (memory_host library) (path "/out/full") true).
  reflexivity.
Defined.

Lemma count_where_raise h ps q e :
  q ∈ ps -> is_file h q = Raise e -> exists e', count_where h ps = Raise e'.
Proof.
  intros Hin Hq. induction ps as [|q' ps IH]; [by apply elem_of_nil in Hin|].
  cbn [count_where]. apply elem_of_cons in Hin as [<-|Hin].
  - unfold is_audio. rewrite Hq. eauto.
  - destruct (is_audio h q') as [b|e0]; [|eauto]. result_step.
    destruct (IH Hin) as [e' ->]. eauto.
Qed.

(** X20: one entry that cannot be examined empties the count: when
    [is_file] raises on an entry of the listing, [count_audio_files]
    returns 0, whatever audio files the directory holds. *)
Theorem count_audio_files_error (h : host) (directory q : Path) (ps : list Path)
    (e : exn) :
  exists_ h directory = Ok true -> iterdir h directory = Ok ps ->
  q ∈ ps -> is_file h q = Raise e ->
  count_audio_files h directory = Ok 0.
Proof.
  intros He Hi Hin Hq. unfold count_audio_files. rewrite He, Hi. result_step.
  cbn [negb]. destruct (count_where_raise h ps q e Hin Hq) as [e' ->]. done.
Qed.

Lemma parse_cue_files_absolute_witness :
  parse_cue_files (memory_host shelf) (path "/in/abs.cue") = Ok [path "/music/a.wav"].
Proof.
  apply (parse_cue_files_absolute (memory_host shelf) (path "/in/abs.cue") absolute_sheet);
    [reflexivity|]. repeat constructor.
Defined.

Lemma parse_cue_files_bound_witness :
  NoDup (path_str <$> [path "/music/a.wav"])
  /\ (length [path "/music/a.wav"]
      <= length (filter (fun line => is_Some (re_match FILE_RE line))
                   (splitlines absolute_sheet)))%nat.
Proof.
  apply (parse_cue_files_bound (memory_host shelf) (path "/in/abs.cue") absolute_sheet);
    reflexivity.
Defined.

Lemma parse_cue_files_same_name_witness :
  parse_cue_files (memory_host shelf) (path "/in/abs.cue") = Ok [path "/music/a.wav"].
Proof.
  apply (parse_cue_files_same_name (memory_host shelf) (path "/in/abs.cue")
           absolute_sheet (py "/music/a.wav") 1); reflexivity.
Defined.

Lemma should_process_not_found_witness :
  should_process (memory_host shelf) (path "/in/missing.cue") (path "/out") true
  = Ok (false, py "audio file not found").
Proof.
  apply (should_process_not_found (memory_host shelf) (path "/in/missing.cue")
           (path "/out") (path "/in/gone.wav") true 2);
    [reflexivity | lia | reflexivity | reflexivity].
Defined.

Lemma count_audio_files_error_witness :
  count_audio_files (unreadable_entry (memory_host shelf) (path "/out/02.flac"))
    (path "/out") = Ok 0.
Proof.
  apply (count_audio_files_error _ _ (path "/out/02.flac")
           [path "/out/01.flac"; path "/out/02.flac"] OSError);
    [reflexivity | reflexivity | | reflexivity].
  apply list_elem_of_further, list_elem_of_here.
Defined.

(** ** The release directory *)

Lemma sanitize_name_total value :
  exists out, sanitize_name value = Ok out /\ Forall safe out.
Proof.
  eexists. split; [apply sanitize_name_render|].
  destruct (bool_decide _); [by apply safe_check|apply render_safe].
Qed.

Lemma render_outside value :
  Forall (fun ch => in_alphabet ch = false) value -> render value = [].
Proof.
  induction 1 as [|ch r Hch Hr IH]; [done|].
  by rewrite render_cons, IH, expansion_outside.
Qed.

Lemma album_or_default_total album :
  exists out, album_or_default album = Ok out /\ Forall safe out.
Proof.
  destruct album as [|ch r]; [|apply sanitize_name_total].
  exists (py "no album"). split; [done|]. by apply safe_check.
Qed.

(** X21: [candidate_artist_album] never raises and returns one
    candidate, whose two names hold only ASCII letters, digits and
    spaces.  An empty album gives the name "no album"; an album that is
    not empty but made only of characters the sanitiser ignores gives the
    empty name, not "no album". *)
Theorem candidate_artist_album_one (artist album : list Z) :
  exists a b,
    candidate_artist_album artist album = Ok [(a, b)]
    /\ sanitize_name artist = Ok a
    /\ Forall safe a /\ Forall safe b
    /\ (album = [] -> b = py "no album")
    /\ (album <> [] -> Forall (fun ch => in_alphabet ch = false) album -> b = []).
Proof.
  destruct (sanitize_name_total artist) as (a & Ha & Hsa).
  destruct (album_or_default_total album) as (b & Hb & Hsb).
  exists a, b. unfold candidate_artist_album. rewrite Ha, Hb.
  repeat split; try done.
  - intros ->. by injection Hb as <-.
  - intros Hne Hall. destruct album as [|ch r]; [done|]. cbn [album_or_default] in Hb.
    rewrite sanitize_name_render in Hb. rewrite bool_decide_eq_false_2 in Hb.
    + injection Hb as <-. exact (render_outside (ch :: r) Hall).
    + intros E. rewrite Forall_forall in Hall.
      assert (H32 : in_alphabet 32 = false); [|discriminate H32].
      apply Hall. rewrite E. apply list_elem_of_further, list_elem_of_here.
Qed.

Lemma candidate_artist_album_one_witness :
  exists a b,
    candidate_artist_album (py "AC/DC") [0x416; 0x438] = Ok [(a, b)]
    /\ sanitize_name (py "AC/DC") = Ok a
    /\ Forall safe a /\ Forall safe b
    /\ b = [].
Proof.
  destruct (candidate_artist_album_one (py "AC/DC") [0x416; 0x438])
    as (a & b & H1 & H2 & H3 & H4 & _ & H6).
  exists a, b. repeat split; try done.
  apply H6; [discriminate|]. repeat constructor.
Defined.

(** X22: with an artist or an album in the sheet, [output_release_dir] is
    [outdir / artist / album] with both names sanitised (the album
    "no album" when absent or empty), and this whether the directory
    exists or not: the existence test decides nothing but may raise. *)
Theorem output_release_dir_metadata (h : host) (x : pure_paths)
    (cue basedir outdir : Path) (artist album : option (list Z)) :
  parse_cue_artist_album h cue = Ok (artist, album) ->
  is_Some artist \/ is_Some album ->
  exists a b,
    sanitize_name (default [] artist) = Ok a
    /\ album_or_default (default [] album) = Ok b
    /\ Forall safe a /\ Forall safe b
    /\ output_release_dir h x cue basedir outdir
       = exists_ h (join_name x (join_name x outdir a) b)
         ≫= fun _ : bool => Ok (join_name x (join_name x outdir a) b).
Proof.
  intros Hp Hm.
  destruct (sanitize_name_total (default [] artist)) as (a & Ha & Hsa).
  destruct (album_or_default_total (default [] album)) as (b & Hb & Hsb).
  exists a, b. repeat split; try done.
  unfold output_release_dir. rewrite Hp. result_step.
  replace (bool_decide (is_Some artist) || bool_decide (is_Some album)) with true.
  2:{ symmetry. apply orb_true_iff.
      destruct Hm; [left|right]; by apply bool_decide_eq_true. }
  cbv zeta. unfold candidate_artist_album. rewrite Ha, Hb. result_step.
  cbn [first_existing].
  destruct (exists_ h _) as [[|]|e]; result_step; done.
Qed.

Lemma output_release_dir_metadata_witness :
  exists a b,
    sanitize_name (default [] (Some (py "Sigur R"))) = Ok a
    /\ album_or_default (default [] None) = Ok b
    /\ Forall safe a /\ Forall safe b
    /\ output_release_dir (memory_host shelf) memory_paths
         (path "/in/missing.cue") (path "/in") (path "/out")
       = exists_ (memory_host shelf)
           (join_name memory_paths (join_name memory_paths (path "/out") a) b)
         ≫= fun _ : bool =>
            Ok (join_name memory_paths (join_name memory_paths (path "/out") a) b).
Proof.
  apply (output_release_dir_metadata (memory_host shelf) memory_paths
           (path "/in/missing.cue") (path "/in") (path "/out")
           (Some (py "Sigur R")) None); [reflexivity|]. left. eauto.
Defined.

Lemma output_release_dir_no_metadata h x cue basedir outdir :
  parse_cue_artist_album h cue = Ok (None, None) ->
  output_release_dir h x cue basedir outdir
  = Ok (match relative_to x (parent h cue) basedir with
        | Some rel_parent => joinpath h outdir rel_parent
        | None => join_name x outdir (name x (parent h cue))
        end).
Proof.
  intros Hp. unfold output_release_dir. rewrite Hp. result_step.
  rewrite !bool_decide_eq_false_2 by (intros [? ?]; done). cbn [orb].
  by destruct (relative_to _ _ _).
Qed.

(** X23: for a sheet that cannot be read, or that names neither artist
    nor album before its first track, [output_release_dir] tests no
    directory and raises nothing: it mirrors the place of the sheet under
    [basedir], or, when the sheet is not under [basedir], takes the name
    of the sheet's directory. *)
Theorem output_release_dir_fallback (h : host) (x : pure_paths)
    (cue basedir outdir : Path) :
  (exists e, read_text_guessing h cue = Raise e)
  \/ parse_cue_artist_album h cue = Ok (None, None) ->
  output_release_dir h x cue basedir outdir
  = Ok (match relative_to x (parent h cue) basedir with
        | Some rel_parent => joinpath h outdir rel_parent
        | None => join_name x outdir (name x (parent h cue))
        end).
Proof.
  intros Hc.
  assert (Hp : parse_cue_artist_album h cue = Ok (None, None)).
  { destruct Hc as [[e He]|Hp]; [|done]. unfold parse_cue_artist_album. by rewrite He. }
  by apply output_release_dir_no_metadata.
Qed.

Lemma output_release_dir_fallback_witness :
  output_release_dir (memory_host shelf) memory_paths
    (path "/in/classical/bach/none.cue") (path "/in") (path "/out")
  = Ok (path "/out/classical/bach").
Proof.
  apply (output_release_dir_fallback (memory_host shelf) memory_paths
           (path "/in/classical/bach/none.cue") (path "/in") (path "/out")).
  left. exists OSError. reflexivity.
Defined.

(** ** The run over the sheets *)

Lemma pair_snd {A B} (p : A * B) (b : B) : p.2 = b -> p = (p.1, b).
Proof. destruct p. cbn. by intros ->. Qed.

(** One iteration adds one to one counter. *)
Lemma process_cue_counts m x args basedir outdir w st cue w' st' :
  process_cue m x args basedir outdir w st cue = (w', Ok st') ->
  st' = Stats (processed st + 1) (skipped st) (failed st)
  \/ st' = Stats (processed st) (skipped st + 1) (failed st)
  \/ st' = Stats (processed st) (skipped st) (failed st + 1).
Proof.
  unfold process_cue.
  destruct (output_release_dir _ _ _ _ _) as [d|e]; [|done].
  destruct (should_process _ _ _ _) as [[[|] reason]|e]; [| |done]; cbn [negb].
  - destruct (run_flacsplit _ _ _ _ _ _) as [w2 [e|]].
    + intros [= _ <-]. auto.
    + destruct (negb (arg_dry_run args)).
      * destruct (verify_output _ _ _) as [w3 [e|]]; intros [= _ <-]; auto.
      * intros [= _ <-]. auto.
  - intros [= _ <-]. auto.
Qed.

(** X24: when the run over the sheets comes to its end, every sheet has
    been counted once: the three counters have grown by the number of
    sheets in all, and none has gone down. *)
Theorem main_loop_counts (m : machine) (x : pure_paths) (args : arguments)
    (basedir outdir : Path) (cues : list Path) (w w' : world) (st st' : stats) :
  main_loop m x args basedir outdir w st cues = (w', Ok st') ->
  processed st' + skipped st' + failed st'
    = processed st + skipped st + failed st + len cues
  /\ processed st <= processed st'
  /\ skipped st <= skipped st'
  /\ failed st <= failed st'.
Proof.
  revert w st. induction cues as [|cue rest IH]; intros w st; cbn [main_loop].
  - intros [= _ <-]. unfold len. simpl. lia.
  - destruct (process_cue m x args basedir outdir w st cue) as [w1 [st1|e]] eqn:Hp;
      [|done].
    intros Hl. apply IH in Hl. apply process_cue_counts in Hp.
    unfold len in *. cbn [length].
    destruct Hp as [-> | [-> | ->]]; cbn [processed skipped failed] in Hl; lia.
Qed.

Lemma main_loop_counts_witness :
  1 + 2 + 0
    = 0 + 0 + 0 + len [path "/in/album.cue"; path "/in/two.cue"; path "/in/split.cue"]
  /\ 0 <= 1 /\ 0 <= 2 /\ 0 <= 0.
Proof.
  apply (main_loop_counts (memory_machine library 0) memory_paths real_args
           (path "/in") (path "/out")
           [path "/in/album.cue"; path "/in/two.cue"; path "/in/split.cue"]
           (start library)
           (main_loop (memory_machine library 0) memory_paths real_args
              (path "/in") (path "/out") (start library) (Stats 0 0 0)
              [path "/in/album.cue"; path "/in/two.cue"; path "/in/split.cue"]).1
           (Stats 0 0 0) (Stats 1 2 0)).
  apply pair_snd. vm_compute. reflexivity.
Defined.







(** X27: a return code other than 0 counts the sheet as failed.  For an
    accepted sheet, outside a dry run, when the directory is made and the
    command returns the code [code] with the texts [stdout] and
    [stderr], the iteration adds one to [failed], leaves the other
    counters, prints the SPLIT line, and prints to the error stream the
    FAILED line with the code and both texts. *)
Theorem process_cue_tool_failed (m : machine) (x : pure_paths) (args : arguments)
    (basedir outdir d : Path) (w : world) (st : stats) (cue : Path)
    (reason stdout stderr : list Z) (h1 h2 : host) (code : Z) :
  output_release_dir (fs w) x cue basedir outdir = Ok d ->
  should_process (fs w) cue d (arg_force args) = Ok (true, reason) ->
  arg_dry_run args = false ->
  mkdir m (fs w) outdir = (h1, Ok tt) ->
  subprocess_run m h1
    [py "flacsplit"; py "-r"; str_of_int (arg_resample args);
     py "-O"; path_str outdir; path_str cue]
    = (h2, Ok (code, stdout, stderr)) ->
  code <> 0 ->
  process_cue m x args basedir outdir w st cue =
  ({| fs := h2;
      out := (py "SPLIT: " ++ rel_text x d outdir ++ py " - " ++ reason) :: out w;
      err := (py "FAILED: " ++ rel_text x d outdir ++ py " - "
              ++ py "flacsplit failed with code " ++ str_of_int code
              ++ newline ++ py "STDOUT: " ++ stdout
              ++ newline ++ py "STDERR: " ++ stderr) :: err w |},
   Ok (Stats (processed st) (skipped st) (failed st + 1))).
Proof.
  intros Ho Hs Hd Hm Hr Hc. unfold process_cue. rewrite Ho, Hs. cbn [negb].
  unfold run_flacsplit. rewrite Hd. cbn [print fs]. rewrite Hm, Hr.
  by rewrite bool_decide_eq_true_2.
Qed.

Lemma process_cue_tool_failed_witness :
  (process_cue (memory_machine library 1) memory_paths real_args
     (path "/in") (path "/out") (start library) (Stats 0 0 0) (path "/in/album.cue")).2
  = Ok (Stats 0 0 1).
Proof.
  rewrite (process_cue_tool_failed (memory_machine library 1) memory_paths real_args
             (path "/in") (path "/out") (path "/out/Test Artist/Test Album")
             (start library) (Stats 0 0 0) (path "/in/album.cue")
             (py "2 tracks") [] (py "cannot split")
             (memory_host library) (memory_host library) 1);
    [reflexivity | vm_compute; reflexivity | vm_compute; reflexivity | reflexivity
     | reflexivity | reflexivity | discriminate].
Defined.



(** The lines that begin with FAILED. *)
Lemma process_cue_failures m x args basedir outdir w st cue w' st' :
  process_cue m x args basedir outdir w st cue = (w', Ok st') ->
  exists lines,
    err w' = lines ++ err w
    /\ len lines = failed st' - failed st
    /\ Forall (fun line => py "FAILED: " `prefix_of` line) lines.
Proof.
  unfold process_cue.
  destruct (output_release_dir _ _ _ _ _) as [d|e]; [|done].
  destruct (should_process _ _ _ _) as [[[|] reason]|e]; [| |done]; cbn [negb].
  2:{ intros [= <- <-]. exists []. cbn [print err failed]. unfold len. simpl.
      split; [done|]. split; [lia|constructor]. }
  assert (Hrun : forall w1, err (run_flacsplit m w1 cue outdir (arg_resample args)
                                   (arg_dry_run args)).1 = err w1).
  { intros w1. unfold run_flacsplit. destruct (arg_dry_run args); [done|].
    destruct (mkdir m (fs w1) outdir) as [h1 [[]|e]]; [|done].
    destruct (subprocess_run m h1 _) as [h2 [[[code so] se]|e]]; [|done].
    by destruct (bool_decide (code <> 0)). }
  assert (Hver : forall w2, err (verify_output w2 cue d).1 = err w2).
  { intros w2. unfold verify_output.
    destruct (count_audio_files (fs w2) d) as [n|e]; [|done].
    destruct (count_cue_tracks (fs w2) cue) as [n'|e]; [|done].
    by destruct (n <? n'). }
  match goal with
  | |- context [run_flacsplit m ?w1 _ _ _ _] => specialize (Hrun w1)
  end.
  destruct (run_flacsplit _ _ _ _ _ _) as [w2 [th|]]; cbn [fst] in Hrun.
  - intros [= <- <-]. eexists [_]. cbn [print_err err failed app].
    rewrite Hrun. cbn [print err]. split; [done|]. split; [unfold len; simpl; lia|].
    apply Forall_singleton. by eexists.
  - destruct (negb (arg_dry_run args)).
    + specialize (Hver w2).
      destruct (verify_output w2 cue d) as [w3 [e|]]; cbn [fst] in Hver.
      * intros [= <- <-]. eexists [_]. cbn [print_err err failed app].
        rewrite Hver, Hrun. cbn [print err]. split; [done|].
        split; [unfold len; simpl; lia|]. apply Forall_singleton. by eexists.
      * intros [= <- <-]. exists []. cbn [failed app]. rewrite Hver, Hrun.
        cbn [print err]. split; [done|]. split; [unfold len; simpl; lia|constructor].
    + intros [= <- <-]. exists []. cbn [failed app]. rewrite Hrun.
      cbn [print err]. split; [done|]. split; [unfold len; simpl; lia|constructor].
Qed.

Lemma main_loop_failures m x args basedir outdir cues : forall w st w' st',
  main_loop m x args basedir outdir w st cues = (w', Ok st') ->
  exists lines,
    err w' = lines ++ err w
    /\ len lines = failed st' - failed st
    /\ Forall (fun line => py "FAILED: " `prefix_of` line) lines.
Proof.
  induction cues as [|cue rest IH]; intros w st w' st'; cbn [main_loop].
  - intros [= <- <-]. exists []. split; [done|]. split; [unfold len; simpl; lia|constructor].
  - destruct (process_cue m x args basedir outdir w st cue) as [w1 [st1|e]] eqn:Hp;
      [|done].
    intros Hl. apply IH in Hl as (l2 & He2 & Hn2 & Hf2).
    apply process_cue_failures in Hp as (l1 & He1 & Hn1 & Hf1).
    exists (l2 ++ l1). rewrite He2, He1, app_assoc. split; [done|].
    split; [rewrite len_app; lia|by apply Forall_app].
Qed.

(** X28: the exit status of [main] tells whether a sheet failed: when
    [main] exits with status 1, a line that begins with FAILED has been
    printed to the error stream, and when it exits with status 0,
    nothing has been printed there. *)
Theorem main_exit_status (m : machine) (x : pure_paths) (args : arguments) (w : world) :
  ((main m x args w).2 = Exit 1 ->
     exists line, line ∈ err (main m x args w).1 /\ py "FAILED: " `prefix_of` line)
  /\ ((main m x args w).2 = Exit 0 -> err (main m x args w).1 = err w).
Proof.
  unfold main.
  destruct (resolved m (fs w) (arg_basedir args)) as [basedir|e]; [|done].
  destruct (resolved m (fs w) (arg_outdir args)) as [outdir|e]; [|done].
  unfold ensure_tools. destruct (which m (fs w) (py "flacsplit")) as [tool|]; [|done].
  destruct (exists_ (fs w) basedir) as [[|]|e]; [|done..].
  destruct (is_dir m (fs w) basedir) as [[|]|e]; [|done..].
  cbv zeta. cbn [print fs].
  destruct (rglob m (fs w) basedir (py "*.cue")) as [lower_cues|e]; [|done].
  destruct (rglob m (fs w) basedir (py "*.CUE")) as [upper_cues|e]; [|done].
  destruct (sorted m lower_cues ++ sorted m upper_cues) as [|cue cues] eqn:Hc; [done|].
  match goal with
  | |- context [main_loop ?m ?x ?a ?b ?o ?w0 ?s ?c] =>
      destruct (main_loop m x a b o w0 s c) as [w1 [st1|e]] eqn:Hl
  end; [|done].
  apply main_loop_failures in Hl as (lines & He & Hn & Hf).
  cbn [err failed] in He, Hn. cbn [fst snd].
  assert (Herr : forall w2 : world,
            err (if arg_dry_run args
                 then print w2 (newline
                                ++ py "(This was a dry run - no files were actually split)")
                 else w2) = err w2) by (intros; by destruct (arg_dry_run args)).
  rewrite Herr. cbn [print err]. rewrite He.
  destruct (failed st1 >? 0) eqn:Hpos; split; try done.
  - intros _. destruct lines as [|line lines].
    { unfold len in Hn. simpl in Hn. rewrite Z.gtb_ltb in Hpos. apply Z.ltb_lt in Hpos. lia. }
    exists line. apply Forall_cons in Hf as [Hf _]. split; [|done].
    apply list_elem_of_here.
  - intros _. destruct lines as [|line lines]; [done|].
    rewrite Z.gtb_ltb in Hpos. apply Z.ltb_ge in Hpos.
    unfold len in Hn. cbn [length] in Hn. lia.
Qed.

Lemma main_exit_status_witness :
  exists line,
    line ∈ err (main (memory_machine shelf 1) memory_paths
                  (Arguments (py "/in") (py "/out") 48000 false true) (start shelf)).1
    /\ py "FAILED: " `prefix_of` line.
Proof.
  apply (proj1 (main_exit_status (memory_machine shelf 1) memory_paths
                  (Arguments (py "/in") (py "/out") 48000 false true) (start shelf))).
  vm_compute. reflexivity.
Defined.
